(** * coup_basic: a shallow embedding of the turn engine of [src/coup_basic.py]

    The Python program is a console implementation of the card game Coup.
    This development embeds the data model ([Role], [ActionType],
    [ACTION_CONFIG], [Influence], [Player], [Deck]) and the engine
    ([GameManager]: the exchanges, [deal_challenge], [process_action_cost],
    the action handlers, [run_game] and the body of its loop) and checks the
    properties of its specification against them.

    Modelling conventions.
    - Python [int] is [Z]; a value that may be [None] is an [option].
    - A [Player] object is referred to by its position in
      [GameManager.players]: the list is filled once by
      [initialize_players] and never resized, so a position is a stable
      object identity ([p is q] is equality of positions).
    - Everything random or interactive ([random.shuffle], [input], the
      choices of [HumanPlayer] and [ComputerPlayer]) is an operation of the
      class [DecisionMaker] over an abstract world [W] that is threaded
      through the engine: two calls with the same arguments may answer
      differently.
    - A Python exception leaves the mutations done so far in place, so the
      engine monad returns the state also when it raises.
    - [print] and [time.sleep] are dropped, and with them the fields that
      only feed them ([name], the cache [Player.alive] read by [__str__],
      [action_history]). *)

From stdpp Require Import list.
From Stdlib Require Import ZArith Lia Sorted.

Open Scope Z_scope.

(** ** Enumerations and the action table *)

Inductive Role : Set := DUKE | ASSASSIN | CAPTAIN | AMBASSADOR | CONTESSA.

Inductive ActionType : Set :=
  INCOME | FOREIGN_AID | COUP | TAX | ASSASSINATE | STEAL | EXCHANGE.

#[global] Instance Role_eq_dec : EqDecision Role.
Proof. solve_decision. Defined.

#[global] Instance ActionType_eq_dec : EqDecision ActionType.
Proof. solve_decision. Defined.

Record ActionMetadata : Set := mkActionMetadata {
  requires_target : bool;
  required_role : option Role;
  counterable_by : list Role;
  coins_cost : Z
}.

Definition ACTION_CONFIG (a : ActionType) : ActionMetadata :=
  match a with
  | INCOME => mkActionMetadata false None [] 0
  | FOREIGN_AID => mkActionMetadata false None [DUKE] 0
  | COUP => mkActionMetadata true None [] 7
  | TAX => mkActionMetadata false (Some DUKE) [] 0
  | ASSASSINATE => mkActionMetadata true (Some ASSASSIN) [CONTESSA] 3
  | STEAL => mkActionMetadata true (Some CAPTAIN) [CAPTAIN; AMBASSADOR] 0
  | EXCHANGE => mkActionMetadata false (Some AMBASSADOR) [] 0
  end.

(** Python truthiness of the values the engine tests with [if]. *)
Definition truthy_list {A} (l : list A) : bool :=
  match l with [] => false | _ => true end.

Definition truthy_opt {A} (o : option A) : bool :=
  match o with None => false | Some _ => true end.

(** [choice["target_id"]] is an [int] or [None]: [None] and [0] are falsy. *)
Definition truthy_int (o : option Z) : bool :=
  match o with None => false | Some z => negb (z =? 0) end.

(** ** Influence *)

Record Influence : Set := mkInfluence {
  role : Role;
  is_revealed : bool
}.

(** [Influence] is a dataclass: [==] compares the two fields. *)
#[global] Instance Influence_eq_dec : EqDecision Influence.
Proof. solve_decision. Defined.

(** [Influence(c)]: created face down. *)
Definition new_influence (c : Role) : Influence := mkInfluence c false.

(** [Influence.reveal] *)
Definition reveal (i : Influence) : Influence := mkInfluence (role i) true.

(** ** Player *)

Record Player : Set := mkPlayer {
  player_id : Z;
  coins : Z;
  influence : list Influence
}.

(** [Player.__init__]: 2 coins, the first two cards dealt face down. *)
Definition new_player (pid : Z) (cards : list Role) : Player :=
  mkPlayer pid 2 (new_influence <$> take 2 cards).

(** [all(i.is_reveal for i in self.influence)] *)
Definition all_revealed (l : list Influence) : bool := forallb is_revealed l.

(** [Player.is_alive] *)
Definition is_alive (p : Player) : bool := negb (all_revealed (influence p)).

(** The face-down cards of a hand. *)
Definition hidden_of (l : list Influence) : list Influence :=
  List.filter (fun i => negb (is_revealed i)) l.

(** [Player.get_hidden_cards] *)
Definition get_hidden_cards (p : Player) : list Influence :=
  hidden_of (influence p).

(** [Player.hidden_cards] *)
Definition hidden_cards (p : Player) : list Role := role <$> get_hidden_cards p.

(** [Player.revealed_cards] *)
Definition revealed_cards (p : Player) : list Role :=
  role <$> List.filter is_revealed (influence p).

(** [Player.has_hidden_role] *)
Definition has_hidden_role (p : Player) (r : Role) : bool :=
  existsb (fun inf => bool_decide (role inf = r) && negb (is_revealed inf))
          (influence p).

(** [Player.get_coin] and [Player.lose_coin] *)
Definition get_coin (n : Z) (p : Player) : Player :=
  mkPlayer (player_id p) (coins p + n) (influence p).

Definition lose_coin (n : Z) (p : Player) : Player :=
  mkPlayer (player_id p) (coins p - n) (influence p).

Definition set_influence (l : list Influence) (p : Player) : Player :=
  mkPlayer (player_id p) (coins p) l.

(** [Player.get_available_actions] *)
Definition get_available_actions (p : Player) : list ActionType :=
  let actions := [INCOME; STEAL; TAX; EXCHANGE; FOREIGN_AID] in
  let actions := if 3 <=? coins p then actions ++ [ASSASSINATE] else actions in
  let actions := if 7 <=? coins p then actions ++ [COUP] else actions in
  let actions := if 10 <=? coins p then [COUP] else actions in
  actions.

(** [hidden_cards[k].reveal()]: the objects of [get_hidden_cards] are the
    objects of [self.influence], so revealing the [k]-th hidden card turns
    the [k]-th face-down element of the hand. *)
Fixpoint reveal_hidden (k : nat) (l : list Influence) : list Influence :=
  match l with
  | [] => []
  | i :: l' =>
      if is_revealed i then i :: reveal_hidden k l'
      else match k with
           | O => reveal i :: l'
           | S k' => i :: reveal_hidden k' l'
           end
  end.

(** [hidden_cards[k].reveal()] on the player that owns the hand. *)
Definition reveal_card (k : nat) (p : Player) : Player :=
  set_influence (reveal_hidden k (influence p)) p.

(** [list.remove(x)]: drops the first element equal to [x]; [None] stands
    for the [ValueError] raised when there is none. *)
Fixpoint list_remove {A} `{EqDecision A} (x : A) (l : list A) : option (list A) :=
  match l with
  | [] => None
  | y :: l' => if decide (x = y) then Some l' else cons y <$> list_remove x l'
  end.

(** [for card in cards: l.remove(card)] *)
Fixpoint list_remove_all {A} `{EqDecision A} (cards l : list A) : option (list A) :=
  match cards with
  | [] => Some l
  | c :: cards' =>
      match list_remove c l with
      | None => None
      | Some l' => list_remove_all cards' l'
      end
  end.

(** ** Deck

    [Deck._cards] is a list whose top is its last element ([list.pop]). *)

Definition all_roles : list Role := [DUKE; ASSASSIN; CAPTAIN; AMBASSADOR; CONTESSA].

(** [[role for role in Role for _ in range(3 + i)]], before the shuffle. *)
Definition deck_cards (i : nat) : list Role :=
  r ← all_roles; replicate (3 + i) r.

(** [Deck.draw]: [None] is the [ValueError] of a short deck; otherwise the
    drawn cards (top first) and the rest of the deck. *)
Definition draw (num : nat) (cards : list Role) : option (list Role * list Role) :=
  if decide (length cards < num)%nat then None
  else Some (reverse (drop (length cards - num) cards),
             take (length cards - num) cards).

(** [Deck.remaining] *)
Definition remaining (cards : list Role) : nat := length cards.

(** ** The engine state *)

Record GameManager : Type := mkGameManager {
  total_player_num : Z;
  deck : list Role;                (* [self.deck._cards] *)
  players : list Player;
  current_player_index : Z;
  current_player : nat;            (* position of the object [self.current_player] *)
  turn_count : Z
}.

Definition set_deck (d : list Role) (g : GameManager) : GameManager :=
  mkGameManager (total_player_num g) d (players g) (current_player_index g)
                (current_player g) (turn_count g).

Definition set_players (ps : list Player) (g : GameManager) : GameManager :=
  mkGameManager (total_player_num g) (deck g) ps (current_player_index g)
                (current_player g) (turn_count g).

Definition set_current_player_index (i : Z) (g : GameManager) : GameManager :=
  mkGameManager (total_player_num g) (deck g) (players g) i
                (current_player g) (turn_count g).

Definition set_current_player (i : nat) (g : GameManager) : GameManager :=
  mkGameManager (total_player_num g) (deck g) (players g) (current_player_index g)
                i (turn_count g).

Definition set_turn_count (t : Z) (g : GameManager) : GameManager :=
  mkGameManager (total_player_num g) (deck g) (players g) (current_player_index g)
                (current_player g) t.

(** The dictionary returned by [get_player_choice]. *)
Record Choice : Set := mkChoice {
  action : ActionType;
  target_id : option Z
}.

(** One entry of [get_target_list] (without the name). *)
Record TargetInfo : Set := mkTargetInfo {
  ti_player_id : Z;
  ti_coins : Z;
  ti_hidden_cards : nat
}.

(** ** The collaborators: randomness and the players' decisions

    The methods that [HumanPlayer] and [ComputerPlayer] override, and
    [random.shuffle]. Each takes the [Player] it is called on, then the
    arguments of the Python method. *)

Class DecisionMaker (W : Type) : Type := {
  shuffle : list Role → W → list Role * W;
  shuffle_perm : ∀ l w, (shuffle l w).1 ≡ₚ l;
  get_player_choice : Player → list TargetInfo → W → option Choice * W;
  challenge_or_not : Player → Player → Role → W → bool * W;
  Player_deal_challenge : Player → W → bool * W;
  target_answer : Player → ActionType → W → option Role * W;
  (* the index that [lose_influence] picks among several hidden cards *)
  choose_reveal : Player → W → nat * W;
  select_cards_to_keep : Player → list Role → list Role → nat → W → list Role * W
}.

(** ** The engine monad: state, world, exceptions, divergence *)

Inductive Exn : Set :=
  ValueError | IndexError | TypeError | AttributeError | ZeroDivisionError.

Inductive Outcome (A : Type) : Type :=
| Ok (a : A)
| Raise (e : Exn)
| Diverge.

Arguments Ok {A} a.
Arguments Raise {A} e.
Arguments Diverge {A}.

Definition M (W A : Type) : Type := GameManager → W → Outcome A * GameManager * W.

Definition ret {W A} (a : A) : M W A := fun g w => (Ok a, g, w).

Definition bind {W A B} (m : M W A) (f : A → M W B) : M W B :=
  fun g w =>
    match m g w with
    | (Ok a, g', w') => f a g' w'
    | (Raise e, g', w') => (Raise e, g', w')
    | (Diverge, g', w') => (Diverge, g', w')
    end.

Declare Scope engine_scope.
Delimit Scope engine_scope with engine.
Notation "'do' x <- m ; k" := (bind m (fun x => k))
  (at level 10, x name, m at level 100, k at level 200,
   format "'[v' 'do'  x  <-  m ; '/' k ']'") : engine_scope.
Notation "m ;; k" := (bind m (fun _ => k))
  (at level 100, k at level 200, right associativity) : engine_scope.
Open Scope engine_scope.

Definition raise {W A} (e : Exn) : M W A := fun g w => (Raise e, g, w).
Definition diverge {W A} : M W A := fun g w => (Diverge, g, w).
Definition get_gm {W} : M W GameManager := fun g w => (Ok g, g, w).
Definition modify_gm {W} (f : GameManager → GameManager) : M W unit :=
  fun g w => (Ok tt, f g, w).

(** A call to a collaborator. *)
Definition ask {W A} (q : W → A * W) : M W A :=
  fun g w => (Ok (q w).1, g, (q w).2).

Definition outcome_of {W A} (r : Outcome A * GameManager * W) : Outcome A := r.1.1.
Definition state_of {W A} (r : Outcome A * GameManager * W) : GameManager := r.1.2.
Definition world_of {W A} (r : Outcome A * GameManager * W) : W := r.2.

(** Python's [a % n]. *)
Definition py_mod {W} (a n : Z) : M W Z :=
  if n =? 0 then raise ZeroDivisionError else ret (a mod n).

(** Python's [l[idx]] as a position: negative indices count from the end. *)
Definition py_index (len : nat) (idx : Z) : option nat :=
  if (0 <=? idx) && (idx <? Z.of_nat len) then Some (Z.to_nat idx)
  else if (- Z.of_nat len <=? idx) && (idx <? 0) then Some (Z.to_nat (Z.of_nat len + idx))
  else None.

(** [range(1, n + 1)] *)
Definition offsets (n : Z) : list Z := Z.of_nat <$> seq 1 (Z.to_nat n).

(** ** The engine *)

Section Engine.
Context {W : Type} `{!DecisionMaker W}.

(** [self.players[idx]]: the position of the object, or [IndexError]. *)
Definition player_at (idx : Z) : M W nat :=
  do g <- get_gm;
  match py_index (length (players g)) idx with
  | Some i => ret i
  | None => raise IndexError
  end.

(** The fields of the object at position [i]. Positions come from
    [player_at] and [get_player_by_id] and the list is never resized, so
    the [None] case is not reached by the engine. *)
Definition read_player (i : nat) : M W Player :=
  do g <- get_gm;
  match players g !! i with
  | Some p => ret p
  | None => raise IndexError
  end.

(** In-place mutation of the object at position [i]. *)
Definition modify_player (i : nat) (f : Player → Player) : M W unit :=
  modify_gm (fun g => set_players (alter f i (players g)) g).

(** [self.deck.draw(num)] *)
Definition Deck_draw (num : nat) : M W (list Role) :=
  do g <- get_gm;
  match draw num (deck g) with
  | None => raise ValueError
  | Some (drawn, rest) => modify_gm (set_deck rest);; ret drawn
  end.

(** [Deck.return_cards]: extend, then shuffle the whole deck. *)
Definition return_cards (cards : list Role) : M W unit :=
  do g <- get_gm;
  do d <- ask (shuffle (deck g ++ cards));
  modify_gm (set_deck d).

(** [HumanPlayer.lose_influence] and [ComputerPlayer.lose_influence]: the
    two differ only in how the index is chosen when several cards are
    hidden ([input] or [int(random.random() * len(hidden_cards))]); both
    choices are in range, which [mod] expresses. *)
Definition lose_influence (i : nat) : M W (option Role) :=
  do p <- read_player i;
  match get_hidden_cards p with
  | [] => ret None
  | [card] =>
      modify_player i (reveal_card 0);;
      ret (Some (role card))
  | hidden =>
      do c <- ask (choose_reveal p);
      let k := (c mod length hidden)%nat in
      modify_player i (reveal_card k);;
      ret (role <$> hidden !! k)
  end.

(** [GameManager.exchange_single_card] *)
Definition exchange_single_card (i : nat) (role_to_return : Role) : M W bool :=
  do p <- read_player i;
  let hidden := get_hidden_cards p in
  if negb (truthy_list hidden) then ret false
  else
    match List.find (fun card => bool_decide (role card = role_to_return)) hidden with
    | None => ret false
    | Some target_card =>
        match list_remove target_card (influence p) with
        | None => raise ValueError
        | Some l =>
            modify_player i (set_influence l);;
            return_cards [role_to_return];;
            do drawn <- Deck_draw 1;
            match drawn with
            | [] => raise IndexError
            | new_card :: _ =>
                modify_player i
                  (fun q => set_influence (influence q ++ [new_influence new_card]) q);;
                ret true
            end
        end
    end.

(** [GameManager.exchange_two_cards] *)
Definition exchange_two_cards (i : nat) : M W bool :=
  do p <- read_player i;
  let hidden := get_hidden_cards p in
  let keep_count := length hidden in
  if (keep_count =? 0)%nat then raise ValueError
  else
    do new_cards <- Deck_draw 2;
    do selected <- ask (select_cards_to_keep p new_cards (role <$> hidden) keep_count);
    if negb (length selected =? keep_count)%nat then raise ValueError
    else
      match list_remove_all hidden (influence p) with
      | None => raise ValueError
      | Some l =>
          modify_player i (set_influence (l ++ (new_influence <$> selected)));;
          let all_cards := new_cards ++ (role <$> hidden) in
          let returned :=
            List.filter (fun c => negb (bool_decide (c ∈ selected))) all_cards in
          (if truthy_list returned then return_cards returned else ret tt);;
          ret true
      end.

(** [GameManager.deal_challenge]: [pl1] is the accused, [pl2] the accuser. *)
Definition deal_challenge (pl1 pl2 : nat) (r : Role) : M W bool :=
  do p1 <- read_player pl1;
  if negb (has_hidden_role p1 r) then
    lose_influence pl1;; ret true
  else
    do proof <- ask (Player_deal_challenge p1);
    if proof then
      exchange_single_card pl1 r;;
      lose_influence pl2;;
      ret false
    else
      lose_influence pl1;; ret true.

(** [GameManager.process_action_cost] *)
Definition process_action_cost (i : nat) (a : ActionType) : M W (bool * Z) :=
  let cost := coins_cost (ACTION_CONFIG a) in
  if cost =? 0 then ret (true, 0)
  else
    do p <- read_player i;
    if coins p <? cost then raise ValueError
    else modify_player i (lose_coin cost);; ret (true, cost).

(** [GameManager.get_player_by_id]. The argument is [choice["target_id"]],
    which may be [None]: the comparison [0 <= None] is a [TypeError]. *)
Definition get_player_by_id (pid : option Z) : M W (option nat) :=
  match pid with
  | None => raise TypeError
  | Some pid =>
      do g <- get_gm;
      if negb ((0 <=? pid) && (pid <? total_player_num g)) then raise IndexError
      else ret (fst <$> list_find (fun p => player_id p = pid) (players g))
  end.

(** The [while] loop of [get_current_player]. It only reads the state, so
    after as many iterations as there are residues it has seen every
    position it will ever see: running out of [fuel] is the infinite loop
    of Python (see [next_alive_diverges]). *)
Fixpoint next_alive (fuel : nat) (t_index : Z) : M W Z :=
  match fuel with
  | O => diverge
  | S fuel' =>
      do p <- player_at t_index;
      do q <- read_player p;
      if is_alive q then ret t_index
      else
        do g <- get_gm;
        do t' <- py_mod (t_index + 1) (total_player_num g);
        next_alive fuel' t'
  end.

(** [GameManager.get_current_player] *)
Definition get_current_player : M W nat :=
  do g <- get_gm;
  do t_index <- py_mod (current_player_index g + 1) (total_player_num g);
  do t <- next_alive (Z.abs_nat (total_player_num g)) t_index;
  modify_gm (set_current_player_index t);;
  player_at t.

(** [self.current_player = self.get_current_player()] followed by
    [self.turn_count = self.turn_count + 1]. *)
Definition advance : M W unit :=
  do p <- get_current_player;
  modify_gm (set_current_player p);;
  modify_gm (fun g => set_turn_count (turn_count g + 1) g).

(** [GameManager.alive_players] and [GameManager.is_game_over] *)
Definition alive_players (g : GameManager) : list Player :=
  List.filter is_alive (players g).

Definition is_game_over (g : GameManager) : bool :=
  (length (alive_players g) <=? 1)%nat.

(** [GameManager.get_target_list] *)
Definition get_target_list (g : GameManager) : list TargetInfo :=
  omap (fun '(i, p) =>
          if bool_decide (i = current_player g) then None
          else if is_alive p
               then Some (mkTargetInfo (player_id p) (coins p)
                                       (length (get_hidden_cards p)))
               else None)
       (imap pair (players g)).

(** *** The action handlers *)

Definition IncomeHandler (actor : nat) (choice : Choice) : M W bool :=
  modify_player actor (get_coin 1);; ret true.

Definition ForeignAidHandler (actor : nat) (choice : Choice) : M W bool :=
  modify_player actor (get_coin 2);; ret true.

Definition TaxHandler (actor : nat) (choice : Choice) : M W bool :=
  modify_player actor (get_coin 3);; ret true.

Definition StealHandler (actor : nat) (choice : Choice) : M W bool :=
  do target <- get_player_by_id (target_id choice);
  match target with
  | None => ret false
  | Some t =>
      do tp <- read_player t;
      let stolen := Z.min 2 (coins tp) in
      modify_player t (lose_coin stolen);;
      modify_player actor (get_coin stolen);;
      ret true
  end.

Definition AssassinateHandler (actor : nat) (choice : Choice) : M W bool :=
  do target <- get_player_by_id (target_id choice);
  match target with
  | None => ret false
  | Some t => lose_influence t;; ret true
  end.

Definition CoupHandler (actor : nat) (choice : Choice) : M W bool :=
  do target <- get_player_by_id (target_id choice);
  match target with
  | None => ret false
  | Some t => lose_influence t;; ret true
  end.

Definition ExchangeHandler (actor : nat) (choice : Choice) : M W bool :=
  exchange_two_cards actor;; ret true.

(** [GameManager.execute_action]: every action has a handler in
    [_action_handlers]. *)
Definition execute_action (actor : nat) (choice : Choice) : M W bool :=
  match action choice with
  | INCOME => IncomeHandler actor choice
  | FOREIGN_AID => ForeignAidHandler actor choice
  | TAX => TaxHandler actor choice
  | STEAL => StealHandler actor choice
  | ASSASSINATE => AssassinateHandler actor choice
  | COUP => CoupHandler actor choice
  | EXCHANGE => ExchangeHandler actor choice
  end.

(** *** The body of the [run_game] loop *)

(** The three loops of [run_game] that look for a challenger
    (lines 1100-1117, 1152-1169 and 1211-1223): players are visited from
    seat [start + 1] on; the claimant and the dead are skipped; the first
    who answers yes to [challenge_or_not] is the challenger. *)
Fixpoint poll_challengers (start : Z) (claimant : nat) (r : Role)
         (offs : list Z) : M W (option nat) :=
  match offs with
  | [] => ret None
  | offset :: offs' =>
      do g <- get_gm;
      do idx <- py_mod (start + offset) (total_player_num g);
      do p <- player_at idx;
      if bool_decide (p = claimant) then poll_challengers start claimant r offs'
      else
        do q <- read_player p;
        if negb (is_alive q) then poll_challengers start claimant r offs'
        else
          do c <- read_player claimant;
          do b <- ask (challenge_or_not q c r);
          if b then ret (Some p) else poll_challengers start claimant r offs'
  end.

(** How an iteration of the [while] loop ends. Python has no such value:
    it names the [continue] (or the fall through) that was taken. *)
Inductive TurnExit : Set :=
| ClaimDisproven        (* the [continue] of line 1129 *)
| CounterStood          (* the [continue] of lines 1181 and 1186 *)
| Executed (ok : bool). (* [execute_action] of line 1249 was reached *)

(** Lines 1249-1253. *)
Definition finish_turn (choice : Choice) : M W TurnExit :=
  do g <- get_gm;
  do ok <- execute_action (current_player g) choice;
  advance;;
  ret (Executed ok).

(** The [for offset] loop of lines 1193-1245. The two [continue] of lines
    1234 and 1242 sit inside this [for], not in a loop of their own: they
    go on to the next [offset] after the turn was advanced. *)
Fixpoint counter_declaration_loop (choice : Choice) (offs : list Z) : M W unit :=
  match offs with
  | [] => ret tt
  | offset :: offs' =>
      do g <- get_gm;
      do idx <- py_mod (current_player_index g + offset) (total_player_num g);
      do pc <- player_at idx;
      if bool_decide (pc = current_player g) then counter_declaration_loop choice offs'
      else
        do q <- read_player pc;
        if negb (is_alive q) then counter_declaration_loop choice offs'
        else
          do counter_choice <- ask (target_answer q (action choice));
          match counter_choice with
          | None => counter_declaration_loop choice offs'
          | Some cr =>
              do co <- poll_challengers (current_player_index g) pc cr
                                        (offsets (total_player_num g));
              match co with
              | Some c =>
                  do result <- deal_challenge pc c cr;
                  if negb result
                  then advance;; counter_declaration_loop choice offs'
                  else ret tt
              | None => advance;; counter_declaration_loop choice offs'
              end
          end
  end.

(** Lines 1137-1247: the [if] on [choice["target_id"]] and its body. *)
Definition counter_phase (choice : Choice) : M W TurnExit :=
  let meta := ACTION_CONFIG (action choice) in
  if truthy_int (target_id choice) && truthy_list (counterable_by meta) then
    do target <- get_player_by_id (target_id choice);
    match target with
    | None => raise AttributeError
    | Some tp =>
        do target_player <- read_player tp;
        do target_choice <- ask (target_answer target_player (action choice));
        match target_choice with
        | Some tc =>
            do g <- get_gm;
            do co <- poll_challengers (player_id target_player) tp tc
                                      (offsets (total_player_num g));
            match co with
            | Some c =>
                do result <- deal_challenge (current_player g) c tc;
                if negb result then advance;; ret CounterStood
                else finish_turn choice
            | None => advance;; ret CounterStood
            end
        | None =>
            if truthy_list (counterable_by meta) then
              do g <- get_gm;
              counter_declaration_loop choice (offsets (total_player_num g));;
              finish_turn choice
            else finish_turn choice
        end
    end
  else finish_turn choice.

(** Lines 1133-1253: the cost, then the counter and the execution. *)
Definition cost_and_counter (choice : Choice) : M W TurnExit :=
  do g <- get_gm;
  process_action_cost (current_player g) (action choice);;
  counter_phase choice.

(** Lines 1097-1129: the challenge of the actor's claim. The result tells
    whether the claim was disproven. *)
Definition claim_challenge_phase (choice : Choice) : M W bool :=
  match required_role (ACTION_CONFIG (action choice)) with
  | None => ret false
  | Some r =>
      do g <- get_gm;
      do challenger <- poll_challengers (current_player_index g) (current_player g) r
                                        (offsets (total_player_num g));
      match challenger with
      | None => ret false
      | Some c => deal_challenge (current_player g) c r
      end
  end.

(** One iteration of the [while] loop of [run_game]. *)
Definition run_turn : M W TurnExit :=
  do g <- get_gm;
  do actor <- read_player (current_player g);
  do choice <- ask (get_player_choice actor (get_target_list g));
  match choice with
  | None => raise ValueError
  | Some choice =>
      do disproven <- claim_challenge_phase choice;
      if disproven then advance;; ret ClaimDisproven
      else cost_and_counter choice
  end.

(** The [while not self.is_game_over()] loop, cut after [n] iterations. *)
Fixpoint run_turns (n : nat) : M W unit :=
  match n with
  | O => ret tt
  | S n' =>
      do g <- get_gm;
      if is_game_over g then ret tt
      else run_turn;; run_turns n'
  end.

(** [GameManager.run_game], with its loop cut after [n] iterations. Line
    1079, [self.current_player = self.players[0]], comes before the loop:
    it puts the player of seat 0 on turn and leaves
    [current_player_index] as it is. What follows the loop only prints
    the winner. *)
Definition run_game (n : nat) : M W unit :=
  do first <- player_at 0;
  modify_gm (set_current_player first);;
  run_turns n.

End Engine.

(** ** Quantities the specification talks about *)

(** [sum(1 for i in p.influence if not i.is_reveal)] *)
Definition hidden_count (p : Player) : nat := length (get_hidden_cards p).

(** Cards in the deck plus cards in the hands. *)
Definition card_total (g : GameManager) : nat :=
  (remaining (deck g) + sum_list_with (fun p => length (influence p)) (players g))%nat.

(** The sizing loop of [GameManager.__init__]:
    [while self.total_player_num * 2 >= (3 + self.i) * 5: self.i = self.i + 2].
    Every iteration raises the bound by 10, so [total] iterations are more
    than the loop can take (see [deck_extra_exit]). *)
Fixpoint deck_extra_loop (fuel : nat) (total i : Z) : Z :=
  match fuel with
  | O => i
  | S fuel' =>
      if (3 + i) * 5 <=? total * 2 then deck_extra_loop fuel' total (i + 2) else i
  end.

Definition deck_extra (total : Z) : Z := deck_extra_loop (Z.to_nat total) total 0.

(** ** [ComputerPlayer.select_cards_to_keep] *)

Definition role_weight (r : Role) : Z :=
  match r with
  | DUKE => 5 | ASSASSIN => 4 | CAPTAIN => 3 | AMBASSADOR => 2 | CONTESSA => 1
  end.

(** [sorted(all_cards, key=lambda c: weights[c], reverse=True)], as a stable
    insertion sort: a card goes behind the cards that weigh as much or more. *)
Fixpoint insert_by_weight (c : Role) (l : list Role) : list Role :=
  match l with
  | [] => [c]
  | x :: l' =>
      if role_weight x <? role_weight c then c :: x :: l'
      else x :: insert_by_weight c l'
  end.

Definition sorted_by_weight (l : list Role) : list Role :=
  foldl (fun acc c => insert_by_weight c acc) [] l.

Definition ComputerPlayer_select_cards_to_keep
    (new_cards hidden : list Role) (keep_count : nat) : list Role :=
  take keep_count (sorted_by_weight (new_cards ++ hidden)).

(** ** A scripted world

    The answers of the players are read off a list, one per question, and
    every question is logged with the id of the player it was put to. The
    shuffle leaves the deck as it is, which is one of the orders
    [random.shuffle] can produce. An exchange without a scripted answer is
    answered as [ComputerPlayer] does. *)

Inductive Answer : Set :=
| AChoice (c : option Choice)
| ABool (b : bool)
| ARole (r : option Role)
| AIndex (k : nat)
| ACards (l : list Role).

Inductive Query : Set :=
| QChoice (asked : Z)
| QChallenge (asked claimant : Z) (r : Role)
| QProof (asked : Z)
| QCounter (asked : Z) (a : ActionType)
| QReveal (asked : Z)
| QSelect (asked : Z).

Record Script : Set := mkScript {
  answers : list Answer;
  queries : list Query
}.

Definition next_answer (q : Query) (s : Script) : option Answer * Script :=
  match answers s with
  | [] => (None, mkScript [] (queries s ++ [q]))
  | a :: l => (Some a, mkScript l (queries s ++ [q]))
  end.

Definition script_choice (p : Player) (tl : list TargetInfo) (s : Script)
  : option Choice * Script :=
  let (a, s') := next_answer (QChoice (player_id p)) s in
  (match a with Some (AChoice c) => c | _ => None end, s').

Definition script_challenge (p claimant : Player) (r : Role) (s : Script)
  : bool * Script :=
  let (a, s') := next_answer (QChallenge (player_id p) (player_id claimant) r) s in
  (match a with Some (ABool b) => b | _ => false end, s').

Definition script_proof (p : Player) (s : Script) : bool * Script :=
  let (a, s') := next_answer (QProof (player_id p)) s in
  (match a with Some (ABool b) => b | _ => false end, s').

Definition script_counter (p : Player) (act : ActionType) (s : Script)
  : option Role * Script :=
  let (a, s') := next_answer (QCounter (player_id p) act) s in
  (match a with Some (ARole r) => r | _ => None end, s').

Definition script_reveal (p : Player) (s : Script) : nat * Script :=
  let (a, s') := next_answer (QReveal (player_id p)) s in
  (match a with Some (AIndex k) => k | _ => 0%nat end, s').

Definition script_select (p : Player) (new_cards hidden : list Role) (keep : nat)
    (s : Script) : list Role * Script :=
  match answers s with
  | ACards l :: rest => (l, mkScript rest (queries s ++ [QSelect (player_id p)]))
  | _ => (ComputerPlayer_select_cards_to_keep new_cards hidden keep,
          mkScript (answers s) (queries s ++ [QSelect (player_id p)]))
  end.

#[global, refine] Instance Script_DecisionMaker : DecisionMaker Script := {|
  shuffle l s := (l, s);
  get_player_choice := script_choice;
  challenge_or_not := script_challenge;
  Player_deal_challenge := script_proof;
  target_answer := script_counter;
  choose_reveal := script_reveal;
  select_cards_to_keep := script_select
|}.
Proof. intros l s. reflexivity. Defined.

Definition script (l : list Answer) : Script := mkScript l [].

(** ** Concrete games of three players *)

Definition face_down (r : Role) : Influence := mkInfluence r false.
Definition face_up (r : Role) : Influence := mkInfluence r true.

Definition game3 (cur : nat) (p0 p1 p2 : Player) (d : list Role) : GameManager :=
  mkGameManager 3 d [p0; p1; p2] (Z.of_nat cur) cur 1.

(** All three duke cards are in play at the actor's seat: one in the hand,
    two on top of the deck. *)
Definition game_three_dukes : GameManager :=
  game3 0
    (mkPlayer 0 2 [face_down DUKE; face_up CAPTAIN])
    (mkPlayer 1 2 [face_down ASSASSIN; face_down CONTESSA])
    (mkPlayer 2 2 [face_down AMBASSADOR; face_down CAPTAIN])
    [ASSASSIN; ASSASSIN; CAPTAIN; AMBASSADOR; AMBASSADOR; CONTESSA; CONTESSA;
     DUKE; DUKE].

(** A fresh deal of a three-player game; the seat on turn is a parameter. *)
Definition game_fresh (cur : nat) : GameManager :=
  game3 cur
    (mkPlayer 0 2 [face_down CAPTAIN; face_down DUKE])
    (mkPlayer 1 2 [face_down ASSASSIN; face_down CONTESSA])
    (mkPlayer 2 2 [face_down AMBASSADOR; face_down DUKE])
    [DUKE; ASSASSIN; ASSASSIN; CAPTAIN; CAPTAIN; AMBASSADOR; AMBASSADOR;
     CONTESSA; CONTESSA].

(** The fresh deal once seat 0 has saved the 3 coins of an assassination;
    seat 1 holds a CONTESSA face down. *)
Definition game_three_coins : GameManager :=
  game3 0
    (mkPlayer 0 3 [face_down CAPTAIN; face_down DUKE])
    (mkPlayer 1 2 [face_down ASSASSIN; face_down CONTESSA])
    (mkPlayer 2 2 [face_down AMBASSADOR; face_down DUKE])
    [DUKE; ASSASSIN; ASSASSIN; CAPTAIN; CAPTAIN; AMBASSADOR; AMBASSADOR;
     CONTESSA; CONTESSA].

(** The same deal later in the game: seat 0 has 7 coins, seat 2 is out. *)
Definition game_late : GameManager :=
  game3 0
    (mkPlayer 0 7 [face_down CAPTAIN; face_down DUKE])
    (mkPlayer 1 2 [face_down ASSASSIN; face_down CONTESSA])
    (mkPlayer 2 2 [face_up AMBASSADOR; face_up DUKE])
    [DUKE; ASSASSIN; ASSASSIN; CAPTAIN; CAPTAIN; AMBASSADOR; AMBASSADOR;
     CONTESSA; CONTESSA].

(** ** Relations between the states before and after a step *)

(** Every seat moves along [Rp]. *)
Definition seats (Rp : Player → Player → Prop) (g g' : GameManager) : Prop :=
  Forall2 Rp (players g) (players g').

(** [m] moves every seat along [Rp], whether it returns, raises or loops. *)
Definition frames {W A} (Rp : Player → Player → Prop) (m : M W A) : Prop :=
  ∀ g w, seats Rp g (state_of (m g w)).

(** [m] only reads the state. *)
Definition reads {W A} (m : M W A) : Prop := ∀ g w, state_of (m g w) = g.

(** The coin balance is the same. *)
Definition same_coins (p p' : Player) : Prop := coins p' = coins p.

(** Who was out is still out. *)
Definition stays_out (p p' : Player) : Prop :=
  is_alive p' = true → is_alive p = true.

(** ** Sequences of engine operations

    The operations that touch a player or the deck, in any order and on any
    seat; an operation that raises leaves its partial effect and the
    sequence goes on, as for a caller that catches the exception. *)

Inductive EngineOp : Set :=
| OpLoseInfluence (i : nat)
| OpGetCoin (i : nat) (n : Z)
| OpLoseCoin (i : nat) (n : Z)
| OpExchangeSingle (i : nat) (r : Role)
| OpExchangeTwo (i : nat)
| OpChallenge (pl1 pl2 : nat) (r : Role)
| OpCost (i : nat) (a : ActionType)
| OpExecute (actor : nat) (c : Choice)
| OpAdvance
| OpTurn.

Definition run_op {W} `{!DecisionMaker W} (op : EngineOp) : M W unit :=
  match op with
  | OpLoseInfluence i => lose_influence i;; ret tt
  | OpGetCoin i n => modify_player i (get_coin n)
  | OpLoseCoin i n => modify_player i (lose_coin n)
  | OpExchangeSingle i r => exchange_single_card i r;; ret tt
  | OpExchangeTwo i => exchange_two_cards i;; ret tt
  | OpChallenge pl1 pl2 r => deal_challenge pl1 pl2 r;; ret tt
  | OpCost i a => process_action_cost i a;; ret tt
  | OpExecute actor c => execute_action actor c;; ret tt
  | OpAdvance => advance
  | OpTurn => run_turn;; ret tt
  end.

Fixpoint run_ops {W} `{!DecisionMaker W} (ops : list EngineOp)
    (g : GameManager) (w : W) : GameManager * W :=
  match ops with
  | [] => (g, w)
  | op :: ops' =>
      let r := run_op op g w in
      run_ops ops' (state_of r) (world_of r)
  end.


(** ** The rest of the data model *)

(** [Player.has_role] *)
Definition has_role (p : Player) (r : Role) : bool :=
  existsb (fun inf => bool_decide (role inf = r)) (influence p).

(** The coins on the table. *)
Definition coin_total (g : GameManager) : Z :=
  foldr Z.add 0 (coins <$> players g).

(** ** Predicates on the state *)

(** [m] keeps [I], whether it returns, raises or loops. *)
Definition keeps {W A} (I : GameManager → Prop) (m : M W A) : Prop :=
  ∀ g w, I g → I (state_of (m g w)).

(** The id is the same. *)
Definition same_id (p p' : Player) : Prop := player_id p' = player_id p.

(** Nobody is in debt. *)
Definition coins_nonneg (g : GameManager) : Prop :=
  Forall (fun p => 0 ≤ coins p) (players g).

(** The seats are as [initialize_players] leaves them: as many players as
    [total_player_num] says, and every player carries the number of its
    seat as its id. *)
Definition seated (g : GameManager) : Prop :=
  Z.of_nat (length (players g)) = total_player_num g
  ∧ ∀ i p, players g !! i = Some p → player_id p = Z.of_nat i.

(** [self.current_player] is the object at [self.current_player_index]. *)
Definition on_turn (g : GameManager) : Prop :=
  0 ≤ current_player_index g
  ∧ current_player g = Z.to_nat (current_player_index g).

(** The cards in the hands, seat after seat. *)
Definition hands (ps : list Player) : list Role :=
  p ← ps; role <$> influence p.

(** The cards of the game, deck and hands together, are the cards [L]. *)
Definition cards_are (L : list Role) (g : GameManager) : Prop :=
  deck g ++ hands (players g) ≡ₚ L.

(** A player as [Player.__init__] makes it: 2 coins, two cards face down. *)
Definition fresh_player (p : Player) : Prop :=
  coins p = 2 ∧ ∃ a b, influence p = [face_down a; face_down b].

(** ** Setting up a game

    [GameManager.__init__] and [initialize_players], without the names. The
    two [shuffle] calls (of the new deck and of the seating) are the
    parameters [shuffle_deck] and [shuffle_players]. *)

(** [Deck(i)]: negative [i] below [-3] gives [range] nothing to do. *)
Definition new_deck (shuffle_deck : list Role → list Role) (i : Z) : list Role :=
  shuffle_deck (r ← all_roles; replicate (Z.to_nat (3 + i)) r).

(** One of the two dealing loops of [initialize_players]: [count] players,
    with ids from [0] on, two cards each. [None] is the [ValueError] of
    [Deck.draw]. *)
Fixpoint deal_players (count : nat) (idx : Z) (d : list Role)
  : option (list Player * list Role) :=
  match count with
  | O => Some ([], d)
  | S count' =>
      match draw 2 d with
      | None => None
      | Some (initial_cards, d') =>
          match deal_players count' (idx + 1) d' with
          | None => None
          | Some (ps, d'') => Some (new_player idx initial_cards :: ps, d'')
          end
      end
  end.

(** [for idx, player in enumerate(self.players): player.player_id = idx] *)
Definition reassign_ids (ps : list Player) : list Player :=
  imap (fun idx p => mkPlayer (Z.of_nat idx) (coins p) (influence p)) ps.

(** [GameManager.initialize_players]: the players and what is left of the
    deck. *)
Definition initialize_players (shuffle_players : list Player → list Player)
    (total human : Z) (d : list Role) : Exn + (list Player * list Role) :=
  if negb ((3 <=? total) && (total <=? 10)) then inl ValueError
  else if negb ((1 <=? human) && (human <=? total)) then inl ValueError
  else
    match deal_players (Z.to_nat human) 0 d with
    | None => inl ValueError
    | Some (humans, d1) =>
        match deal_players (Z.to_nat (total - human)) 0 d1 with
        | None => inl ValueError
        | Some (computers, d2) =>
            inr (reassign_ids (shuffle_players (humans ++ computers)), d2)
        end
    end.

(** [GameManager.__init__]; [self.players[0]] cannot fail once
    [initialize_players] has returned, the check is kept all the same. *)
Definition new_game (shuffle_deck : list Role → list Role)
    (shuffle_players : list Player → list Player) (pls hpls : Z)
  : Exn + GameManager :=
  let i := deck_extra pls in
  match initialize_players shuffle_players pls hpls (new_deck shuffle_deck i) with
  | inl e => inl e
  | inr (ps, d) =>
      match ps with
      | [] => inl IndexError
      | _ => inr (mkGameManager pls d ps 0 0 1)
      end
  end.

(** The order of [sorted(..., reverse=True)]: heavier cards first. *)
Definition heavier_first (a b : Role) : Prop := role_weight b ≤ role_weight a.

(** ** The decisions of [ComputerPlayer]

    [random.choice(l)] is [l[k mod len(l)]] for a random [k]; the test
    [random.random() < 0.6] is a random boolean. *)

(** [random.choice]; [None] is the [IndexError] of an empty list. *)
Definition random_choice {A} (k : nat) (l : list A) : option A :=
  l !! (k mod length l)%nat.

(** [ComputerPlayer.get_player_choice]; [None] stands for its exceptions
    (no action to choose from). *)
Definition ComputerPlayer_get_player_choice (p : Player) (target_list : list TargetInfo)
    (k_action k_target : nat) : option Choice :=
  let actions := get_available_actions p in
  if negb (truthy_list actions) then None
  else
    match random_choice k_action actions with
    | None => None
    | Some selected_action =>
        if requires_target (ACTION_CONFIG selected_action) && truthy_list target_list
        then match random_choice k_target target_list with
             | None => None
             | Some target => Some (mkChoice selected_action (Some (ti_player_id target)))
             end
        else Some (mkChoice selected_action None)
    end.

(** [max(counter_roles, key=lambda r: role_weights[r])]: the first of the
    heaviest; [None] is the [ValueError] of an empty list. *)
Fixpoint max_by_weight_from (best : Role) (l : list Role) : Role :=
  match l with
  | [] => best
  | r :: l' =>
      if role_weight best <? role_weight r then max_by_weight_from r l'
      else max_by_weight_from best l'
  end.

Definition max_by_weight (l : list Role) : option Role :=
  match l with
  | [] => None
  | r :: l' => Some (max_by_weight_from r l')
  end.

(** [ComputerPlayer.target_answer]; [lucky] is [random.random() < 0.6]. *)
Definition ComputerPlayer_target_answer (act : ActionType) (lucky : bool) : option Role :=
  let counter_roles := counterable_by (ACTION_CONFIG act) in
  if negb (truthy_list counter_roles) then None
  else
    let options := (Some <$> counter_roles) ++ [None] in
    if (length options =? 1)%nat then None
    else if lucky && truthy_list counter_roles then max_by_weight counter_roles
    else None.

(** * Properties of the data model *)

Section Hands.
Implicit Types (l : list Influence) (p : Player) (k : nat).

Lemma get_hidden_cards_eq p : get_hidden_cards p = hidden_of (influence p).
Proof. reflexivity. Qed.

Lemma all_revealed_hidden l : all_revealed l = true ↔ hidden_of l = [].
Proof.
  induction l as [|[r b] l IH]; simpl; [done|].
  destruct b; simpl; [exact IH|]. split; discriminate.
Qed.

Lemma is_alive_hidden p : is_alive p = true ↔ get_hidden_cards p ≠ [].
Proof.
  unfold is_alive. rewrite get_hidden_cards_eq, <- all_revealed_hidden.
  destruct (all_revealed (influence p)); simpl; split; congruence.
Qed.

Lemma is_alive_false_hidden p : is_alive p = false ↔ get_hidden_cards p = [].
Proof.
  unfold is_alive. rewrite get_hidden_cards_eq, <- all_revealed_hidden.
  destruct (all_revealed (influence p)); simpl; split; congruence.
Qed.

Lemma hidden_of_app l1 l2 : hidden_of (l1 ++ l2) = hidden_of l1 ++ hidden_of l2.
Proof. apply List.filter_app. Qed.

Lemma hidden_of_new (cards : list Role) :
  hidden_of (new_influence <$> cards) = new_influence <$> cards.
Proof. induction cards; simpl; [done|]. by f_equal. Qed.

Lemma reveal_hidden_length k l : length (reveal_hidden k l) = length l.
Proof.
  revert k; induction l as [|[r b] l IH]; intros k; simpl; [done|].
  destruct b; simpl; [by rewrite IH|]. destruct k; simpl; [done|by rewrite IH].
Qed.

(** Revealing the [k]-th hidden card takes exactly one card out of the
    hidden ones. *)
Lemma reveal_hidden_count k l :
  (k < length (hidden_of l))%nat →
  S (length (hidden_of (reveal_hidden k l))) = length (hidden_of l).
Proof.
  revert k; induction l as [|[r b] l IH]; intros k; simpl; [lia|].
  destruct b; simpl; [apply IH|].
  destruct k; simpl; [done|]. intros Hk. rewrite <- (IH k); lia.
Qed.

Lemma reveal_hidden_ge k l :
  (length (hidden_of l) ≤ k)%nat → reveal_hidden k l = l.
Proof.
  revert k; induction l as [|[r b] l IH]; intros k; simpl; [done|].
  destruct b; simpl; [intros; f_equal; by apply IH|].
  destruct k; simpl; [lia|]. intros; f_equal. apply IH. lia.
Qed.

(** A reveal never turns a card face down again. *)
Lemma reveal_hidden_all_revealed k l :
  all_revealed l = true → all_revealed (reveal_hidden k l) = true.
Proof.
  intros H. rewrite reveal_hidden_ge; [done|].
  apply all_revealed_hidden in H. rewrite H. simpl; lia.
Qed.

Lemma reveal_hidden_roles k l : role <$> reveal_hidden k l = role <$> l.
Proof.
  revert k; induction l as [|[r b] l IH]; intros k; simpl; [done|].
  destruct b; simpl; [by rewrite IH|]. destruct k; simpl; [done|by rewrite IH].
Qed.

Lemma has_hidden_role_find p r :
  has_hidden_role p r = true ↔
  List.find (fun card => bool_decide (role card = r)) (get_hidden_cards p)
  = Some (mkInfluence r false).
Proof.
  unfold has_hidden_role, get_hidden_cards.
  induction (influence p) as [|[r' b] l IH]; simpl; [done|].
  destruct b; simpl.
  - rewrite andb_false_r. exact IH.
  - rewrite andb_true_r. case_bool_decide; simpl; [subst; done|exact IH].
Qed.

Lemma has_hidden_role_find_None p r :
  has_hidden_role p r = false ↔
  List.find (fun card => bool_decide (role card = r)) (get_hidden_cards p) = None.
Proof.
  unfold has_hidden_role, get_hidden_cards.
  induction (influence p) as [|[r' b] l IH]; simpl; [done|].
  destruct b; simpl.
  - rewrite andb_false_r. exact IH.
  - rewrite andb_true_r. case_bool_decide; simpl; [done|exact IH].
Qed.

Lemma has_hidden_role_alive p r : has_hidden_role p r = true → is_alive p = true.
Proof.
  intros H. apply is_alive_hidden. apply has_hidden_role_find in H.
  intros E. rewrite E in H. discriminate.
Qed.

(** [list.remove] of a hidden card of the hand. *)
Lemma list_remove_hidden p r :
  has_hidden_role p r = true →
  ∃ l, list_remove (mkInfluence r false) (influence p) = Some l
       ∧ S (length l) = length (influence p)
       ∧ S (length (hidden_of l)) = length (get_hidden_cards p)
       ∧ mkInfluence r false :: l ≡ₚ influence p.
Proof.
  unfold has_hidden_role, get_hidden_cards.
  induction (influence p) as [|[r' b] l IH]; simpl; [done|].
  intros H. apply orb_true_iff in H as [H|H].
  - apply andb_true_iff in H as [H1 H2]. apply bool_decide_eq_true in H1.
    apply negb_true_iff in H2. simpl in *; subst.
    exists l. rewrite decide_True by done. done.
  - destruct (IH H) as (l' & E & L1 & L2 & HP).
    destruct (decide (mkInfluence r false = mkInfluence r' b)) as [Heq|Hne].
    + inversion Heq; subst. exists l. simpl. done.
    + exists (mkInfluence r' b :: l'). rewrite E. simpl.
      split; [done|]. split; [lia|]. split.
      * fold (hidden_of l) in *. destruct b; simpl; lia.
      * rewrite <- HP. apply Permutation_swap.
Qed.

Lemma list_remove_revealed_prefix pre (x : Influence) l :
  all_revealed pre = true → is_revealed x = false →
  list_remove x (pre ++ x :: l) = Some (pre ++ l).
Proof.
  intros Hpre Hx. induction pre as [|y pre IH]; simpl.
  - by rewrite decide_True.
  - simpl in Hpre. apply andb_true_iff in Hpre as [Hy Hpre].
    rewrite decide_False by (intros ->; congruence).
    by rewrite IH.
Qed.

(** [for card in hidden_cards: player.influence.remove(card)] leaves the
    revealed cards, in their order. *)
Lemma list_remove_all_hidden_from pre l :
  all_revealed pre = true →
  list_remove_all (hidden_of l) (pre ++ l) = Some (pre ++ List.filter is_revealed l).
Proof.
  revert pre; induction l as [|[r b] l IH]; intros pre Hpre; simpl; [done|].
  destruct b; simpl.
  - rewrite (cons_middle _ pre l), (cons_middle _ pre (List.filter _ _)), !app_assoc.
    apply IH. unfold all_revealed in *. rewrite forallb_app, Hpre. done.
  - rewrite list_remove_revealed_prefix by done. by apply IH.
Qed.

Lemma list_remove_all_hidden l :
  list_remove_all (hidden_of l) l = Some (List.filter is_revealed l).
Proof. apply (list_remove_all_hidden_from [] l). done. Qed.

Lemma hidden_of_revealed l : hidden_of (List.filter is_revealed l) = [].
Proof.
  induction l as [|[r b] l IH]; simpl; [done|]. destruct b; simpl; exact IH.
Qed.

Lemma filter_length_split l :
  (length (List.filter is_revealed l) + length (hidden_of l))%nat = length l.
Proof.
  induction l as [|[r b] l IH]; simpl; [done|]. destruct b; simpl; lia.
Qed.
End Hands.

Section DeckFacts.
Implicit Types (cards : list Role).

Lemma draw_Some num cards :
  (num ≤ length cards)%nat →
  ∃ drawn rest, draw num cards = Some (drawn, rest)
                ∧ length drawn = num
                ∧ (length rest + num)%nat = length cards
                ∧ rest ++ reverse drawn = cards.
Proof.
  intros H. unfold draw. rewrite decide_False by lia.
  eexists _, _. split; [done|].
  rewrite length_reverse, length_drop, length_take, reverse_involutive, take_drop.
  repeat split; lia.
Qed.

Lemma draw_None num cards : (length cards < num)%nat → draw num cards = None.
Proof. intros H. unfold draw. by rewrite decide_True. Qed.

(** The deck of [Deck(i)] holds [3 + i] copies of each of the five roles. *)
Lemma deck_cards_length i : length (deck_cards i) = (5 * (3 + i))%nat.
Proof.
  unfold deck_cards.
  repeat (progress (simpl; rewrite ?length_app, ?length_replicate)). lia.
Qed.

Lemma deck_extra_loop_exit fuel total i :
  0 ≤ i → total * 2 < (3 + i) * 5 + 10 * Z.of_nat fuel →
  total * 2 < (3 + deck_extra_loop fuel total i) * 5.
Proof.
  revert i; induction fuel as [|fuel IH]; intros i Hi Hb; simpl.
  - lia.
  - destruct ((3 + i) * 5 <=? total * 2) eqn:E.
    + apply IH; lia.
    + apply Z.leb_gt in E. lia.
Qed.

(** The sizing loop has left its [while] when the fuel is spent. *)
Lemma deck_extra_exit total :
  0 ≤ total → total * 2 < (3 + deck_extra total) * 5.
Proof. intros H. apply deck_extra_loop_exit; lia. Qed.

Lemma deck_extra_small total : 3 ≤ total ≤ 7 → deck_extra total = 0.
Proof.
  intros H. unfold deck_extra.
  destruct (Z.to_nat total) as [|n] eqn:E; [lia|]. cbn [deck_extra_loop].
  assert (((3 + 0) * 5 <=? total * 2) = false) as -> by (apply Z.leb_gt; lia).
  reflexivity.
Qed.
End DeckFacts.

(** * How the primitives of the engine run *)

Section Runs.
Context {W : Type} `{!DecisionMaker W}.
Implicit Types (g : GameManager) (w : W) (i : nat) (p : Player).

Lemma bind_ok {A B} (m : M W A) (f : A → M W B) g w a g' w' :
  m g w = (Ok a, g', w') → bind m f g w = f a g' w'.
Proof. intros E. unfold bind. by rewrite E. Qed.

Lemma bind_raise {A B} (m : M W A) (f : A → M W B) g w e g' w' :
  m g w = (Raise e, g', w') → bind m f g w = (Raise e, g', w').
Proof. intros E. unfold bind. by rewrite E. Qed.

Lemma bind_diverge {A B} (m : M W A) (f : A → M W B) g w g' w' :
  m g w = (Diverge, g', w') → bind m f g w = (Diverge, g', w').
Proof. intros E. unfold bind. by rewrite E. Qed.

Lemma modify_player_run g w i f :
  modify_player i f g w = (Ok tt, set_players (alter f i (players g)) g, w).
Proof. reflexivity. Qed.

Lemma set_players_id g : set_players (players g) g = g.
Proof. by destruct g. Qed.

Lemma set_influence_id p : set_influence (influence p) p = p.
Proof. by destruct p. Qed.

Lemma alter_lookup {A} (f : A → A) (l : list A) i x :
  l !! i = Some x → alter f i l = <[i:=f x]> l.
Proof.
  revert i; induction l as [|y l IH]; intros [|i] E; simplify_eq/=; [done|].
  f_equal. by apply IH.
Qed.

Lemma alter_stale {A} (f : A → A) (l : list A) i : l !! i = None → alter f i l = l.
Proof.
  revert i; induction l as [|y l IH]; intros [|i] E; simplify_eq/=; [done..|].
  f_equal. by apply IH.
Qed.

Lemma read_player_run g w i p :
  players g !! i = Some p → read_player i g w = (Ok p, g, w).
Proof. intros E. unfold read_player, bind, get_gm. by rewrite E. Qed.

Lemma read_player_stale g w i :
  players g !! i = None → read_player i g w = (Raise IndexError, g, w).
Proof. intros E. unfold read_player, bind, get_gm. by rewrite E. Qed.

(** *** [lose_influence] *)

Lemma lose_influence_stale g w i :
  players g !! i = None → lose_influence i g w = (Raise IndexError, g, w).
Proof. intros E. unfold lose_influence, bind. by rewrite read_player_stale. Qed.

(** A player without hidden cards loses nothing: the call returns [None]. *)
Lemma lose_influence_dead g w i p :
  players g !! i = Some p → get_hidden_cards p = [] →
  lose_influence i g w = (Ok None, g, w).
Proof.
  intros E Hh. unfold lose_influence, bind.
  rewrite (read_player_run _ _ _ _ E), Hh. done.
Qed.

(** A player with hidden cards reveals exactly one of them. *)
Lemma lose_influence_run g w i p :
  players g !! i = Some p → get_hidden_cards p ≠ [] →
  ∃ k r w', (k < length (get_hidden_cards p))%nat
    ∧ lose_influence i g w
      = (Ok r, set_players (<[i:=reveal_card k p]> (players g)) g, w').
Proof.
  intros E Hh. unfold lose_influence, bind.
  rewrite (read_player_run _ _ _ _ E).
  destruct (get_hidden_cards p) as [|c [|c' h]] eqn:Hc; [done|..].
  - exists 0%nat, (Some (role c)), w. split; [simpl; lia|].
    unfold modify_player, modify_gm, ret. by rewrite (alter_lookup _ _ _ _ E).
  - eexists ((choose_reveal p w).1 mod length (c :: c' :: h))%nat, _, _. split.
    + apply Nat.mod_upper_bound. done.
    + unfold ask, modify_player, modify_gm, ret. cbv beta iota.
      by rewrite (alter_lookup _ _ _ _ E).
Qed.

(** *** The deck *)

Lemma Deck_draw_run g w num drawn rest :
  draw num (deck g) = Some (drawn, rest) →
  Deck_draw num g w = (Ok drawn, set_deck rest g, w).
Proof. intros E. unfold Deck_draw, bind, get_gm. by rewrite E. Qed.

Lemma Deck_draw_short g w num :
  draw num (deck g) = None → Deck_draw num g w = (Raise ValueError, g, w).
Proof. intros E. unfold Deck_draw, bind, get_gm. by rewrite E. Qed.

Lemma return_cards_run g w cards :
  return_cards cards g w
  = (Ok tt, set_deck (shuffle (deck g ++ cards) w).1 g, (shuffle (deck g ++ cards) w).2).
Proof. reflexivity. Qed.

(** *** [exchange_single_card] *)

Lemma exchange_single_card_absent g w i p r :
  players g !! i = Some p → has_hidden_role p r = false →
  exchange_single_card i r g w = (Ok false, g, w).
Proof.
  intros E Hr. unfold exchange_single_card, bind.
  rewrite (read_player_run _ _ _ _ E).
  destruct (truthy_list (get_hidden_cards p)); simpl; [|done].
  apply has_hidden_role_find_None in Hr. by rewrite Hr.
Qed.

Lemma exchange_single_card_run g w i p r :
  players g !! i = Some p → has_hidden_role p r = true →
  ∃ l c d w',
    list_remove (mkInfluence r false) (influence p) = Some l
    ∧ d ++ [c] ≡ₚ deck g ++ [r]
    ∧ exchange_single_card i r g w
      = (Ok true,
         set_deck d
           (set_players
              (<[i:=set_influence (l ++ [new_influence c]) p]> (players g)) g),
         w').
Proof.
  intros E Hr. unfold exchange_single_card.
  rewrite (bind_ok _ _ _ _ _ _ _ (read_player_run _ _ _ _ E)).
  pose proof (has_hidden_role_find p r) as [Hf _]. specialize (Hf Hr).
  destruct (get_hidden_cards p) as [|c0 h] eqn:Hh; [done|].
  cbn [truthy_list negb]. rewrite Hf.
  destruct (list_remove_hidden p r Hr) as (l & El & _).
  rewrite El.
  rewrite (bind_ok _ _ _ _ _ _ _ (modify_player_run _ _ _ _)).
  rewrite (bind_ok _ _ _ _ _ _ _ (return_cards_run _ _ _)).
  cbn [deck set_players set_deck].
  set (sh := shuffle (deck g ++ [r]) w).
  pose proof (shuffle_perm (deck g ++ [r]) w) as HP. fold sh in HP.
  assert (1 ≤ length sh.1)%nat as Hlen.
  { rewrite HP, length_app. simpl. lia. }
  destruct (draw_Some 1 sh.1 Hlen) as (drawn & rest & Ed & Ld & _ & Hcat).
  erewrite bind_ok; [|apply Deck_draw_run; exact Ed].
  destruct drawn as [|c [|? ?]]; simplify_eq/=.
  exists l, c, rest, sh.2. split; [done|]. split.
  - rewrite <- HP, <- Hcat. done.
  - rewrite (bind_ok _ _ _ _ _ _ _ (modify_player_run _ _ _ _)).
    unfold ret, set_deck, set_players. simpl.
    rewrite list_alter_alter_eq, (alter_lookup _ _ _ _ E). done.
Qed.

(** *** [exchange_two_cards] *)

Lemma exchange_two_cards_dead g w i p :
  players g !! i = Some p → get_hidden_cards p = [] →
  exchange_two_cards i g w = (Raise ValueError, g, w).
Proof.
  intros E Hh. unfold exchange_two_cards.
  rewrite (bind_ok _ _ _ _ _ _ _ (read_player_run _ _ _ _ E)). by rewrite Hh.
Qed.

Lemma exchange_two_cards_short g w i p :
  players g !! i = Some p → get_hidden_cards p ≠ [] → draw 2 (deck g) = None →
  exchange_two_cards i g w = (Raise ValueError, g, w).
Proof.
  intros E Hh Hd. unfold exchange_two_cards.
  rewrite (bind_ok _ _ _ _ _ _ _ (read_player_run _ _ _ _ E)).
  destruct (get_hidden_cards p) as [|c h]; [done|]. cbn [length Nat.eqb].
  erewrite bind_raise; [done|]. by apply Deck_draw_short.
Qed.

(** The selection is read after the two cards have left the deck. *)
Lemma exchange_two_cards_bad_selection g w i p new_cards rest :
  players g !! i = Some p → get_hidden_cards p ≠ [] →
  draw 2 (deck g) = Some (new_cards, rest) →
  let keep_count := length (get_hidden_cards p) in
  let answer := select_cards_to_keep p new_cards (hidden_cards p) keep_count w in
  length answer.1 ≠ keep_count →
  exchange_two_cards i g w = (Raise ValueError, set_deck rest g, answer.2).
Proof.
  intros E Hh Hd keep_count answer Hsel. unfold exchange_two_cards.
  rewrite (bind_ok _ _ _ _ _ _ _ (read_player_run _ _ _ _ E)).
  replace (length (get_hidden_cards p) =? 0)%nat with false
    by (symmetry; apply Nat.eqb_neq; destruct (get_hidden_cards p); simpl; done).
  rewrite (bind_ok _ _ _ _ _ _ _ (Deck_draw_run _ _ _ _ _ Hd)).
  unfold bind at 1. unfold ask at 1. cbv iota beta.
  fold (hidden_cards p). fold keep_count. fold answer.
  replace (length answer.1 =? keep_count)%nat with false
    by (symmetry; by apply Nat.eqb_neq).
  done.
Qed.

Lemma exchange_two_cards_run g w i p new_cards rest :
  players g !! i = Some p → get_hidden_cards p ≠ [] →
  draw 2 (deck g) = Some (new_cards, rest) →
  let keep_count := length (get_hidden_cards p) in
  let answer := select_cards_to_keep p new_cards (hidden_cards p) keep_count w in
  let returned :=
    List.filter (fun c => negb (bool_decide (c ∈ answer.1)))
                (new_cards ++ hidden_cards p) in
  length answer.1 = keep_count →
  ∃ d w',
    d ≡ₚ rest ++ returned
    ∧ exchange_two_cards i g w
      = (Ok true,
         set_deck d
           (set_players
              (<[i:=set_influence (List.filter is_revealed (influence p)
                                   ++ (new_influence <$> answer.1)) p]> (players g)) g),
         w').
Proof.
  intros E Hh Hd keep_count answer returned Hsel. unfold exchange_two_cards.
  rewrite (bind_ok _ _ _ _ _ _ _ (read_player_run _ _ _ _ E)).
  replace (length (get_hidden_cards p) =? 0)%nat with false
    by (symmetry; apply Nat.eqb_neq; destruct (get_hidden_cards p); simpl; done).
  rewrite (bind_ok _ _ _ _ _ _ _ (Deck_draw_run _ _ _ _ _ Hd)).
  unfold bind at 1. unfold ask at 1. cbv iota beta.
  fold (hidden_cards p). fold keep_count. fold answer.
  replace (length answer.1 =? keep_count)%nat with true
    by (symmetry; by apply Nat.eqb_eq).
  cbn [negb]. unfold get_hidden_cards. rewrite list_remove_all_hidden.
  rewrite (bind_ok _ _ _ _ _ _ _ (modify_player_run _ _ _ _)).
  fold (get_hidden_cards p). fold (hidden_cards p). fold returned.
  rewrite (alter_lookup _ _ _ _ E).
  destruct returned as [|c returned'] eqn:Hret; cbn [truthy_list].
  - exists rest, answer.2. split; [by rewrite app_nil_r|]. by destruct g.
  - rewrite (bind_ok _ _ _ _ _ _ _ (return_cards_run _ _ _)).
    eexists _, _. split; [|by destruct g].
    apply shuffle_perm.
Qed.

(** *** [deal_challenge] *)

Lemma deal_challenge_bluff g w pl1 pl2 p1 r :
  players g !! pl1 = Some p1 → has_hidden_role p1 r = false →
  deal_challenge pl1 pl2 r g w = (lose_influence pl1;; ret true) g w.
Proof.
  intros E Hr. unfold deal_challenge.
  rewrite (bind_ok _ _ _ _ _ _ _ (read_player_run _ _ _ _ E)). by rewrite Hr.
Qed.

Lemma deal_challenge_decline g w pl1 pl2 p1 r :
  players g !! pl1 = Some p1 → has_hidden_role p1 r = true →
  (Player_deal_challenge p1 w).1 = false →
  deal_challenge pl1 pl2 r g w
  = (lose_influence pl1;; ret true) g (Player_deal_challenge p1 w).2.
Proof.
  intros E Hr Hd. unfold deal_challenge.
  rewrite (bind_ok _ _ _ _ _ _ _ (read_player_run _ _ _ _ E)). rewrite Hr.
  cbn [negb]. unfold bind at 1, ask at 1. cbv iota beta. by rewrite Hd.
Qed.

Lemma deal_challenge_proof g w pl1 pl2 p1 r :
  players g !! pl1 = Some p1 → has_hidden_role p1 r = true →
  (Player_deal_challenge p1 w).1 = true →
  deal_challenge pl1 pl2 r g w
  = (exchange_single_card pl1 r;; lose_influence pl2;; ret false)
      g (Player_deal_challenge p1 w).2.
Proof.
  intros E Hr Hd. unfold deal_challenge.
  rewrite (bind_ok _ _ _ _ _ _ _ (read_player_run _ _ _ _ E)). rewrite Hr.
  cbn [negb]. unfold bind at 1, ask at 1. cbv iota beta. by rewrite Hd.
Qed.

(** *** [process_action_cost] *)

Lemma process_action_cost_free g w i a :
  coins_cost (ACTION_CONFIG a) = 0 →
  process_action_cost i a g w = (Ok (true, 0), g, w).
Proof. intros E. unfold process_action_cost. by rewrite E. Qed.

Lemma process_action_cost_paid g w i a p :
  players g !! i = Some p →
  coins_cost (ACTION_CONFIG a) ≠ 0 → coins_cost (ACTION_CONFIG a) ≤ coins p →
  process_action_cost i a g w
  = (Ok (true, coins_cost (ACTION_CONFIG a)),
     set_players (<[i:=lose_coin (coins_cost (ACTION_CONFIG a)) p]> (players g)) g, w).
Proof.
  intros E Hc Hle. unfold process_action_cost.
  rewrite (proj2 (Z.eqb_neq _ _) Hc).
  rewrite (bind_ok _ _ _ _ _ _ _ (read_player_run _ _ _ _ E)).
  rewrite (proj2 (Z.ltb_ge _ _) Hle).
  rewrite (bind_ok _ _ _ _ _ _ _ (modify_player_run _ _ _ _)).
  by rewrite (alter_lookup _ _ _ _ E).
Qed.

Lemma process_action_cost_short g w i a p :
  players g !! i = Some p →
  coins_cost (ACTION_CONFIG a) ≠ 0 → coins p < coins_cost (ACTION_CONFIG a) →
  process_action_cost i a g w = (Raise ValueError, g, w).
Proof.
  intros E Hc Hlt. unfold process_action_cost.
  rewrite (proj2 (Z.eqb_neq _ _) Hc).
  rewrite (bind_ok _ _ _ _ _ _ _ (read_player_run _ _ _ _ E)).
  by rewrite (proj2 (Z.ltb_lt _ _) Hlt).
Qed.

End Runs.

(** * Relations that every step of the engine preserves

    [Rp] relates a player before and after a step; [frames Rp m] says that
    [m] moves every seat along [Rp], whether [m] returns, raises or loops.
    The relation is assumed to survive a reveal and, for a player with a
    hidden card, any change of hand: both the coin balance and the rule
    "once out, always out" are of this kind. *)

Section Frames.
Context {W : Type} `{!DecisionMaker W}.
Variable Rp : Player → Player → Prop.
Hypothesis Rp_refl : ∀ p, Rp p p.
Hypothesis Rp_trans : ∀ p q r, Rp p q → Rp q r → Rp p r.
Hypothesis Rp_reveal : ∀ p k, Rp p (reveal_card k p).
Hypothesis Rp_hand : ∀ p l, is_alive p = true → Rp p (set_influence l p).

Lemma seats_refl g : seats Rp g g.
Proof. apply Forall_Forall2_diag, Forall_forall. auto. Qed.

Lemma seats_trans g1 g2 g3 : seats Rp g1 g2 → seats Rp g2 g3 → seats Rp g1 g3.
Proof.
  unfold seats. generalize (players g1) (players g2) (players g3).
  intros l1 l2 l3 H12; revert l3.
  induction H12; intros l3 H23; inversion H23; subst; constructor; eauto.
Qed.

Lemma seats_same_players g g' : players g' = players g → seats Rp g g'.
Proof. intros E. unfold seats. rewrite E. apply seats_refl. Qed.

Lemma seats_insert g g' i p p' :
  players g !! i = Some p → Rp p p' → players g' = <[i:=p']> (players g) →
  seats Rp g g'.
Proof.
  intros E HR Hg'. unfold seats. rewrite Hg'. clear Hg'. revert i E.
  induction (players g) as [|q l IH]; intros [|i] E; simplify_eq/=.
  - constructor; [done|]. apply Forall_Forall2_diag, Forall_forall. auto.
  - constructor; [auto|]. by apply IH.
Qed.

Lemma seats_alter g g' i f :
  (∀ p, Rp p (f p)) → players g' = alter f i (players g) → seats Rp g g'.
Proof.
  intros Hf E. destruct (players g !! i) as [p|] eqn:El.
  - eapply seats_insert; [done|apply (Hf p)|]. by rewrite E, (alter_lookup _ _ _ _ El).
  - apply seats_same_players. by rewrite E, (alter_stale _ _ _ El).
Qed.

(** *** The monad *)

Lemma frames_ret {A} (a : A) : frames Rp (@ret W A a).
Proof. intros g w. apply seats_refl. Qed.

Lemma frames_raise {A} e : frames Rp (@raise W A e).
Proof. intros g w. apply seats_refl. Qed.

Lemma frames_diverge {A} : frames Rp (@diverge W A).
Proof. intros g w. apply seats_refl. Qed.

Lemma frames_get_gm : frames Rp (@get_gm W).
Proof. intros g w. apply seats_refl. Qed.

Lemma frames_ask {A} (q : W → A * W) : frames Rp (ask q).
Proof. intros g w. apply seats_refl. Qed.

Lemma frames_bind {A B} (m : M W A) (f : A → M W B) :
  frames Rp m → (∀ a, frames Rp (f a)) → frames Rp (bind m f).
Proof.
  intros Hm Hf g w. unfold bind. specialize (Hm g w).
  destruct (m g w) as [[[a|e|] g'] w'] eqn:E; cbn in *; [|done..].
  eapply seats_trans; [exact Hm|]. apply Hf.
Qed.

Lemma frames_modify_gm f :
  (∀ g, players (f g) = players g) → frames Rp (@modify_gm W f).
Proof. intros Hf g w. apply seats_same_players. apply Hf. Qed.

Lemma frames_modify_player i f : (∀ p, Rp p (f p)) → frames Rp (@modify_player W i f).
Proof. intros Hf g w. eapply seats_alter; [exact Hf|done]. Qed.

Lemma frames_py_mod a n : frames Rp (@py_mod W a n).
Proof. unfold py_mod. destruct (n =? 0); [apply frames_raise|apply frames_ret]. Qed.

Ltac frames_step :=
  lazymatch goal with
  | |- frames _ (bind _ _) => apply frames_bind; [|intros]
  | |- frames _ (ret _) => apply frames_ret
  | |- frames _ (raise _) => apply frames_raise
  | |- frames _ diverge => apply frames_diverge
  | |- frames _ get_gm => apply frames_get_gm
  | |- frames _ (ask _) => apply frames_ask
  | |- frames _ (py_mod _ _) => apply frames_py_mod
  | |- frames _ (modify_gm _) => apply frames_modify_gm; intros; reflexivity
  | |- frames _ (if ?b then _ else _) => destruct b
  | |- frames _ (match ?x with _ => _ end) => destruct x
  | |- frames _ _ => solve [auto]
  end.
Ltac frames := cbv zeta; repeat frames_step.

Lemma frames_player_at idx : frames Rp (@player_at W idx).
Proof. unfold player_at. frames. Qed.

Lemma frames_read_player i : frames Rp (@read_player W i).
Proof. unfold read_player. frames. Qed.

Lemma frames_Deck_draw num : frames Rp (@Deck_draw W num).
Proof. unfold Deck_draw. frames. Qed.

Lemma frames_return_cards cards : frames Rp (return_cards cards).
Proof. unfold return_cards. frames. Qed.

#[local] Hint Resolve frames_player_at frames_read_player frames_Deck_draw
     frames_return_cards : core.

(** *** The primitives *)

Lemma frames_lose_influence i : frames Rp (lose_influence i).
Proof.
  unfold lose_influence. frames; apply frames_modify_player; auto.
Qed.

Lemma frames_exchange_single_card i r : frames Rp (exchange_single_card i r).
Proof.
  intros g w. destruct (players g !! i) as [p|] eqn:E.
  - destruct (has_hidden_role p r) eqn:Hr.
    + destruct (exchange_single_card_run g w i p r E Hr) as (l & c & d & w' & _ & _ & ->).
      eapply seats_insert; [exact E| |done].
      apply Rp_hand. by eapply has_hidden_role_alive.
    + rewrite (exchange_single_card_absent g w i p r E Hr). apply seats_refl.
  - unfold exchange_single_card.
    rewrite (bind_raise _ _ _ _ _ _ _ (read_player_stale _ _ _ E)). apply seats_refl.
Qed.

Lemma frames_exchange_two_cards i : frames Rp (exchange_two_cards i).
Proof.
  intros g w. destruct (players g !! i) as [p|] eqn:E.
  - destruct (decide (get_hidden_cards p = [])) as [Hh|Hh].
    { rewrite (exchange_two_cards_dead g w i p E Hh). apply seats_refl. }
    destruct (draw 2 (deck g)) as [[new_cards rest]|] eqn:Hd.
    + set (keep_count := length (get_hidden_cards p)).
      set (answer := select_cards_to_keep p new_cards (hidden_cards p) keep_count w).
      destruct (decide (length answer.1 = keep_count)) as [Hs|Hs].
      * destruct (exchange_two_cards_run g w i p new_cards rest E Hh Hd Hs)
          as (d & w' & _ & ->).
        eapply seats_insert; [exact E| |done].
        apply Rp_hand. by apply is_alive_hidden.
      * rewrite (exchange_two_cards_bad_selection g w i p new_cards rest E Hh Hd Hs).
        by apply seats_same_players.
    + rewrite (exchange_two_cards_short g w i p E Hh Hd). apply seats_refl.
  - unfold exchange_two_cards.
    rewrite (bind_raise _ _ _ _ _ _ _ (read_player_stale _ _ _ E)). apply seats_refl.
Qed.

#[local] Hint Resolve frames_lose_influence frames_exchange_single_card
     frames_exchange_two_cards : core.

Lemma frames_deal_challenge pl1 pl2 r : frames Rp (deal_challenge pl1 pl2 r).
Proof. unfold deal_challenge. frames. Qed.

Lemma frames_get_player_by_id pid : frames Rp (@get_player_by_id W pid).
Proof. unfold get_player_by_id. frames. Qed.

Lemma frames_next_alive fuel t : frames Rp (@next_alive W fuel t).
Proof. revert t; induction fuel as [|fuel IH]; intros t; simpl; frames. Qed.

#[local] Hint Resolve frames_deal_challenge frames_get_player_by_id frames_next_alive : core.

Lemma frames_get_current_player : frames Rp (@get_current_player W).
Proof. unfold get_current_player. frames. Qed.

#[local] Hint Resolve frames_get_current_player : core.

Lemma frames_advance : frames Rp (@advance W).
Proof. unfold advance. frames. Qed.

#[local] Hint Resolve frames_advance : core.

Lemma frames_poll_challengers start claimant r offs :
  frames Rp (poll_challengers start claimant r offs).
Proof. induction offs as [|o offs IH]; simpl; frames. Qed.

#[local] Hint Resolve frames_poll_challengers : core.

Lemma frames_counter_declaration_loop choice offs :
  frames Rp (counter_declaration_loop choice offs).
Proof. induction offs as [|o offs IH]; simpl; frames. Qed.

#[local] Hint Resolve frames_counter_declaration_loop : core.

(** The handlers that move no coin. *)
Lemma frames_execute_action_no_coin actor choice :
  action choice = ASSASSINATE ∨ action choice = COUP ∨ action choice = EXCHANGE →
  frames Rp (execute_action actor choice).
Proof.
  intros Ha. unfold execute_action.
  destruct Ha as [Ha|[Ha|Ha]]; rewrite Ha;
    unfold AssassinateHandler, CoupHandler, ExchangeHandler; frames.
Qed.

Lemma frames_finish_turn_no_coin choice :
  action choice = ASSASSINATE ∨ action choice = COUP ∨ action choice = EXCHANGE →
  frames Rp (finish_turn choice).
Proof.
  intros Ha. unfold finish_turn. frames. by apply frames_execute_action_no_coin.
Qed.

Lemma frames_counter_phase_no_coin choice :
  action choice = ASSASSINATE ∨ action choice = COUP ∨ action choice = EXCHANGE →
  frames Rp (counter_phase choice).
Proof.
  intros Ha. pose proof (frames_finish_turn_no_coin choice Ha).
  unfold counter_phase. frames.
Qed.

(** *** With coins free to move *)

Hypothesis Rp_get_coin : ∀ p n, Rp p (get_coin n p).
Hypothesis Rp_lose_coin : ∀ p n, Rp p (lose_coin n p).

Lemma frames_process_action_cost i a : frames Rp (@process_action_cost W i a).
Proof. unfold process_action_cost. frames. apply frames_modify_player; auto. Qed.

Lemma frames_execute_action actor choice : frames Rp (execute_action actor choice).
Proof.
  unfold execute_action.
  destruct (action choice);
    unfold IncomeHandler, ForeignAidHandler, TaxHandler, StealHandler,
      AssassinateHandler, CoupHandler, ExchangeHandler;
    frames; apply frames_modify_player; auto.
Qed.

#[local] Hint Resolve frames_process_action_cost frames_execute_action : core.

Lemma frames_finish_turn choice : frames Rp (finish_turn choice).
Proof. unfold finish_turn. frames. Qed.

#[local] Hint Resolve frames_finish_turn : core.

Lemma frames_counter_phase choice : frames Rp (counter_phase choice).
Proof. unfold counter_phase. frames. Qed.

#[local] Hint Resolve frames_counter_phase : core.

Lemma frames_cost_and_counter choice : frames Rp (cost_and_counter choice).
Proof. unfold cost_and_counter. frames. Qed.

Lemma frames_claim_challenge_phase choice : frames Rp (claim_challenge_phase choice).
Proof. unfold claim_challenge_phase. frames. Qed.

#[local] Hint Resolve frames_cost_and_counter frames_claim_challenge_phase : core.

Lemma frames_run_turn : frames Rp run_turn.
Proof. unfold run_turn. frames. Qed.

#[local] Hint Resolve frames_run_turn : core.

Lemma frames_run_turns n : frames Rp (run_turns n).
Proof. induction n as [|n IH]; simpl; frames. Qed.

Lemma frames_run_game n : frames Rp (run_game n).
Proof. pose proof (frames_run_turns n). unfold run_game. frames. Qed.

End Frames.

(** * The paths through a turn *)

Section Paths.
Context {W : Type} `{!DecisionMaker W}.
Implicit Types (g : GameManager) (w : W) (i : nat) (p : Player).

Lemma bind_get {A} (f : GameManager → M W A) g w : bind get_gm f g w = f g g w.
Proof. reflexivity. Qed.

Lemma bind_ask {A B} (q : W → A * W) (f : A → M W B) g w :
  bind (ask q) f g w = f (q w).1 g (q w).2.
Proof. reflexivity. Qed.

Lemma bind_ret {A B} (a : A) (f : A → M W B) g w : bind (ret a) f g w = f a g w.
Proof. reflexivity. Qed.

(** A computation that returns went through each of its steps. *)
Lemma bind_Ok_inv {A B} (m : M W A) (f : A → M W B) g w (x : B) :
  outcome_of (bind m f g w) = Ok x →
  ∃ a g' w', m g w = (Ok a, g', w') ∧ bind m f g w = f a g' w'.
Proof.
  unfold bind, outcome_of. destruct (m g w) as [[[a|e|] g'] w']; cbn; [|done..].
  intros _. by exists a, g', w'.
Qed.

(** *** Steps that only read the state *)

Lemma reads_bind {A B} (m : M W A) (f : A → M W B) :
  reads m → (∀ a, reads (f a)) → reads (bind m f).
Proof.
  intros Hm Hf g w. unfold bind. specialize (Hm g w).
  destruct (m g w) as [[[a|e|] g'] w']; cbn in *; subst; [apply Hf|done..].
Qed.

Lemma reads_ret {A} (a : A) : reads (@ret W A a).
Proof. done. Qed.
Lemma reads_raise {A} e : reads (@raise W A e).
Proof. done. Qed.
Lemma reads_get_gm : reads (@get_gm W).
Proof. done. Qed.
Lemma reads_ask {A} (q : W → A * W) : reads (ask q).
Proof. done. Qed.
Lemma reads_py_mod a n : reads (@py_mod W a n).
Proof. unfold py_mod. by destruct (n =? 0). Qed.

Ltac reads_step :=
  lazymatch goal with
  | |- reads (bind _ _) => apply reads_bind; [|intros]
  | |- reads (ret _) => apply reads_ret
  | |- reads (raise _) => apply reads_raise
  | |- reads get_gm => apply reads_get_gm
  | |- reads (ask _) => apply reads_ask
  | |- reads (py_mod _ _) => apply reads_py_mod
  | |- reads (if ?b then _ else _) => destruct b
  | |- reads (match ?x with _ => _ end) => destruct x
  | |- reads _ => solve [auto]
  end.
Ltac reads := cbv zeta; repeat reads_step.

Lemma reads_player_at idx : reads (@player_at W idx).
Proof. unfold player_at. reads. Qed.

Lemma reads_read_player i : reads (@read_player W i).
Proof. unfold read_player. reads. Qed.

#[local] Hint Resolve reads_player_at reads_read_player : core.

Lemma reads_get_player_by_id pid : reads (@get_player_by_id W pid).
Proof. unfold get_player_by_id. reads. Qed.

(** Looking for a challenger changes nothing in the game. *)
Lemma reads_poll_challengers start claimant r offs :
  reads (poll_challengers start claimant r offs).
Proof. induction offs as [|o offs IH]; simpl; reads. Qed.

(** The claimant is never its own challenger. *)
Lemma poll_challengers_other start claimant r offs g w c :
  outcome_of (poll_challengers start claimant r offs g w) = Ok (Some c) →
  c ≠ claimant.
Proof.
  revert g w; induction offs as [|o offs IH]; intros g w; simpl; [done|].
  rewrite bind_get. intros Ho.
  apply bind_Ok_inv in Ho as Hb. destruct Hb as (idx & g1 & w1 & _ & Eb).
  rewrite Eb in Ho. clear Eb.
  apply bind_Ok_inv in Ho as Hb. destruct Hb as (q & g2 & w2 & _ & Eb).
  rewrite Eb in Ho. clear Eb.
  case_bool_decide as Hq; [by eapply IH|].
  apply bind_Ok_inv in Ho as Hb. destruct Hb as (pq & g3 & w3 & _ & Eb).
  rewrite Eb in Ho. clear Eb.
  destruct (negb (is_alive pq)); [by eapply IH|].
  apply bind_Ok_inv in Ho as Hb. destruct Hb as (pc & g4 & w4 & _ & Eb).
  rewrite Eb in Ho. clear Eb.
  rewrite bind_ask in Ho.
  destruct (challenge_or_not pq pc r w4).1; [|by eapply IH].
  cbn in Ho. by simplify_eq.
Qed.

(** *** Steps that leave the seats as they are *)

Lemma frames_eq_players {A} (m : M W A) g w :
  frames eq m → players (state_of (m g w)) = players g.
Proof. intros Hm. symmetry. apply list_eq_Forall2. apply Hm. Qed.

Lemma advance_players g w : players (state_of (advance g w)) = players g.
Proof. apply frames_eq_players, frames_advance; [done|]. intros; congruence. Qed.

(** *** The search for the next player *)

Lemma player_at_run idx g w :
  player_at idx g w
  = match py_index (length (players g)) idx with
    | Some i => (Ok i, g, w)
    | None => (Raise IndexError, g, w)
    end.
Proof. unfold player_at. rewrite bind_get. by destruct (py_index _ _). Qed.

Lemma py_mod_run a n g w :
  n ≠ 0 → @py_mod W a n g w = (Ok (a mod n), g, w).
Proof. intros Hn. unfold py_mod. by rewrite (proj2 (Z.eqb_neq _ _) Hn). Qed.

(** [run_game] is its loop, run from the state in which seat 0 is on
    turn; without players the first line fails. *)
Lemma run_game_run n g w :
  run_game n g w
  = match py_index (length (players g)) 0 with
    | Some first => run_turns n (set_current_player first g) w
    | None => (Raise IndexError, g, w)
    end.
Proof.
  unfold run_game. unfold bind at 1. rewrite player_at_run.
  by destruct (py_index (length (players g)) 0).
Qed.

(** When the fuel of [next_alive] runs out, every seat it looked at holds
    a player who is out. *)
Lemma next_alive_fuel fuel t g w :
  outcome_of (next_alive fuel t g w) = Diverge →
  0 ≤ t < total_player_num g →
  ∀ j, 0 ≤ j < Z.of_nat fuel →
       ∃ p, players g !! Z.to_nat ((t + j) mod total_player_num g) = Some p
            ∧ is_alive p = false.
Proof.
  revert t; induction fuel as [|fuel IH]; intros t Ho Ht j Hj; [lia|].
  cbn [next_alive] in Ho.
  assert (player_at t g w = (Ok (Z.to_nat t), g, w)
          ∨ player_at t g w = (Raise IndexError, g, w)) as [Hp|Hp].
  { rewrite player_at_run. unfold py_index.
    destruct ((0 <=? t) && (t <? Z.of_nat (length (players g)))); [by left|].
    destruct ((- Z.of_nat (length (players g)) <=? t) && (t <? 0)) eqn:Hneg;
      [|by right]. apply andb_true_iff in Hneg as [_ Hneg]. apply Z.ltb_lt in Hneg. lia. }
  2: { by rewrite (bind_raise _ _ _ _ _ _ _ Hp) in Ho. }
  rewrite (bind_ok _ _ _ _ _ _ _ Hp) in Ho.
  destruct (players g !! Z.to_nat t) as [q|] eqn:Eq; cycle 1.
  { by rewrite (bind_raise _ _ _ _ _ _ _ (read_player_stale _ _ _ Eq)) in Ho. }
  rewrite (bind_ok _ _ _ _ _ _ _ (read_player_run _ _ _ _ Eq)) in Ho.
  destruct (is_alive q) eqn:Hq; [done|].
  rewrite bind_get in Ho.
  assert (total_player_num g ≠ 0) as Hn by lia.
  rewrite (bind_ok _ _ _ _ _ _ _ (py_mod_run _ _ _ _ Hn)) in Ho.
  destruct (decide (j = 0)) as [->|Hj0].
  - exists q. rewrite Z.add_0_r, Z.mod_small by done. done.
  - destruct (IH _ Ho ltac:(apply Z.mod_pos_bound; lia) (j - 1) ltac:(lia))
      as (p & Ep & Hdead).
    exists p. split; [|done]. rewrite <- Ep. f_equal. f_equal.
    rewrite Zplus_mod_idemp_l. f_equal. lia.
Qed.

(** [get_current_player] loops for ever only when everybody is out. *)
Lemma next_alive_diverges t g w :
  outcome_of (next_alive (Z.abs_nat (total_player_num g)) t g w) = Diverge →
  0 ≤ t < total_player_num g →
  ∀ seat : Z, 0 ≤ seat < total_player_num g →
       ∃ p, players g !! Z.to_nat seat = Some p ∧ is_alive p = false.
Proof.
  intros Ho Ht seat Hi.
  destruct (next_alive_fuel _ t g w Ho Ht ((seat - t) mod total_player_num g))
    as (p & Ep & Hp).
  { pose proof (Z.mod_pos_bound (seat - t) (total_player_num g)). lia. }
  exists p. split; [|done]. rewrite <- Ep. f_equal.
  rewrite Zplus_mod_idemp_r. replace (t + (seat - t)) with seat by lia.
  by rewrite Z.mod_small.
Qed.

(** *** [get_player_by_id] *)

Lemma get_player_by_id_missing g w :
  get_player_by_id None g w = (Raise TypeError, g, w).
Proof. reflexivity. Qed.

Lemma get_player_by_id_range g w t :
  ¬ (0 ≤ t < total_player_num g) →
  get_player_by_id (Some t) g w = (Raise IndexError, g, w).
Proof.
  intros Hr. unfold get_player_by_id. rewrite bind_get.
  destruct (Z.leb_spec 0 t), (Z.ltb_spec t (total_player_num g)); cbn; done || lia.
Qed.

Lemma get_player_by_id_run g w t :
  0 ≤ t < total_player_num g →
  get_player_by_id (Some t) g w
  = (Ok (fst <$> list_find (fun p => player_id p = t) (players g)), g, w).
Proof.
  intros Hr. unfold get_player_by_id. rewrite bind_get.
  destruct (Z.leb_spec 0 t), (Z.ltb_spec t (total_player_num g)); cbn; done || lia.
Qed.

(** *** The cost and the handlers of the actions with a target *)

Lemma lose_coin_zero p : lose_coin 0 p = p.
Proof. destruct p. unfold lose_coin. cbn. f_equal. lia. Qed.

(** The cost step of an actor who can pay: the coins are taken, nothing else
    moves. *)
Lemma process_action_cost_ok g w i a p :
  players g !! i = Some p →
  coins_cost (ACTION_CONFIG a) ≤ coins p →
  ∃ res,
    process_action_cost i a g w
    = (Ok res,
       set_players (<[i:=lose_coin (coins_cost (ACTION_CONFIG a)) p]> (players g)) g,
       w).
Proof.
  intros E Hle. destruct (decide (coins_cost (ACTION_CONFIG a) = 0)) as [Hz|Hnz].
  - exists (true, 0). rewrite (process_action_cost_free _ _ _ _ Hz), Hz.
    rewrite lose_coin_zero, list_insert_id by done. by rewrite set_players_id.
  - eexists. by apply process_action_cost_paid.
Qed.

Lemma execute_action_missing g w actor a :
  requires_target (ACTION_CONFIG a) = true →
  execute_action actor (mkChoice a None) g w = (Raise TypeError, g, w).
Proof. destruct a; try discriminate; reflexivity. Qed.

Lemma execute_action_range g w actor a t :
  requires_target (ACTION_CONFIG a) = true →
  ¬ (0 ≤ t < total_player_num g) →
  execute_action actor (mkChoice a (Some t)) g w = (Raise IndexError, g, w).
Proof.
  intros Ha Hr.
  destruct a; try discriminate; unfold execute_action; cbn [action];
    unfold CoupHandler, AssassinateHandler, StealHandler; cbn [target_id];
    by rewrite (bind_raise _ _ _ _ _ _ _ (get_player_by_id_range _ _ _ Hr)).
Qed.

(** A handler takes any id in range that names a seat, be it the seat of
    the actor or of a player who is out. *)
Lemma execute_action_accepts g w actor a t tp target :
  requires_target (ACTION_CONFIG a) = true →
  0 ≤ t < total_player_num g →
  list_find (fun p => player_id p = t) (players g) = Some (tp, target) →
  outcome_of (execute_action actor (mkChoice a (Some t)) g w) = Ok true.
Proof.
  intros Ha Hr Hf.
  assert (∀ w0, outcome_of ((lose_influence tp;; ret true) g w0) = Ok true) as Hlose.
  { intros w0. apply list_find_Some in Hf as (Et & _).
    destruct (decide (get_hidden_cards target = [])) as [Hh|Hh].
    - by rewrite (bind_ok _ _ _ _ _ _ _ (lose_influence_dead _ _ _ _ Et Hh)).
    - destruct (lose_influence_run g w0 tp target Et Hh) as (k & ro & w' & _ & El).
      by rewrite (bind_ok _ _ _ _ _ _ _ El). }
  destruct a; try discriminate; unfold execute_action; cbn [action];
    unfold CoupHandler, AssassinateHandler, StealHandler; cbn [target_id];
    rewrite (bind_ok _ _ _ _ _ _ _ (get_player_by_id_run _ _ _ Hr)), Hf;
    cbn [fmap option_fmap option_map fst]; [apply Hlose..|].
  apply list_find_Some in Hf as (Et & _).
  by rewrite (bind_ok _ _ _ _ _ _ _ (read_player_run _ _ _ _ Et)).
Qed.

(** *** How a turn can end *)

Lemma finish_turn_raise choice g w e g' w' :
  execute_action (current_player g) choice g w = (Raise e, g', w') →
  finish_turn choice g w = (Raise e, g', w').
Proof.
  intros Hx. unfold finish_turn. rewrite bind_get.
  by rewrite (bind_raise _ _ _ _ _ _ _ Hx).
Qed.

End Paths.

(** * The claims of the specification *)

(** ** The two relations are preserved by the moves of the engine *)

Section Relations.
Implicit Types (p q r : Player).

Lemma same_coins_refl p : same_coins p p.
Proof. done. Qed.

Lemma same_coins_trans p q r : same_coins p q → same_coins q r → same_coins p r.
Proof. unfold same_coins. congruence. Qed.

Lemma same_coins_reveal p k : same_coins p (reveal_card k p).
Proof. done. Qed.

Lemma same_coins_hand p l : is_alive p = true → same_coins p (set_influence l p).
Proof. done. Qed.

Lemma stays_out_refl p : stays_out p p.
Proof. by intros ?. Qed.

Lemma stays_out_trans p q r : stays_out p q → stays_out q r → stays_out p r.
Proof. unfold stays_out. auto. Qed.

Lemma stays_out_reveal p k : stays_out p (reveal_card k p).
Proof.
  unfold stays_out, is_alive, reveal_card. simpl.
  destruct (all_revealed (influence p)) eqn:E; [|done].
  by rewrite reveal_hidden_all_revealed.
Qed.

Lemma stays_out_hand p l : is_alive p = true → stays_out p (set_influence l p).
Proof. by intros ? ?. Qed.

Lemma stays_out_get_coin p n : stays_out p (get_coin n p).
Proof. by intros ?. Qed.

Lemma stays_out_lose_coin p n : stays_out p (lose_coin n p).
Proof. by intros ?. Qed.
End Relations.

(** ** C4: the legal actions *)

(** C4. For every player: with fewer than 10 coins the legal actions
    contain INCOME, FOREIGN_AID, TAX, EXCHANGE and STEAL; ASSASSINATE is
    legal exactly from 3 coins on (and below the forced coup); COUP is legal
    exactly from 7 coins on; from 10 coins on COUP is the only legal
    action. *)
Theorem C4_available_actions (p : Player) :
  let legal := get_available_actions p in
  (coins p < 10 →
     INCOME ∈ legal ∧ FOREIGN_AID ∈ legal ∧ TAX ∈ legal
     ∧ EXCHANGE ∈ legal ∧ STEAL ∈ legal)
  ∧ (coins p < 10 → (ASSASSINATE ∈ legal ↔ 3 ≤ coins p))
  ∧ (COUP ∈ legal ↔ 7 ≤ coins p)
  ∧ (10 ≤ coins p → legal = [COUP]).
Proof.
  unfold get_available_actions. cbv zeta.
  destruct (Z.leb_spec 3 (coins p)), (Z.leb_spec 7 (coins p)),
    (Z.leb_spec 10 (coins p)); try lia; cbn [app];
    repeat split; try (intros; lia); try done;
    rewrite ?elem_of_cons, ?elem_of_nil;
    intuition (first [lia | discriminate | reflexivity]).
Qed.

Lemma C4_available_actions_witness :
  INCOME ∈ get_available_actions (mkPlayer 0 5 [])
  ∧ ASSASSINATE ∈ get_available_actions (mkPlayer 0 5 [])
  ∧ get_available_actions (mkPlayer 0 12 []) = [COUP].
Proof.
  split; [|split].
  - apply (proj1 (C4_available_actions (mkPlayer 0 5 []))). simpl. lia.
  - apply (proj1 (proj2 (C4_available_actions (mkPlayer 0 5 [])))); simpl; lia.
  - apply (proj2 (proj2 (proj2 (C4_available_actions (mkPlayer 0 12 []))))). simpl. lia.
Defined.

(** ** C7: the swap of a proven card *)

(** C7. When the accused holds the claimed role face down, the single-card
    swap succeeds; it removes one face-down card of that role from the hand
    of the accused, puts it into the deck, and appends the card drawn from
    the shuffled deck face down. The hand keeps its length and the deck its
    size; the coins of the accused, the other players and the rest of the
    state are untouched. *)
Theorem C7_swap_frame {W} `{!DecisionMaker W}
    (g : GameManager) (w : W) (i : nat) (accused : Player) (r : Role) :
  players g !! i = Some accused →
  has_hidden_role accused r = true →
  ∃ l c g' w',
    exchange_single_card i r g w = (Ok true, g', w')
    ∧ list_remove (face_down r) (influence accused) = Some l
    ∧ players g'
      = <[i:=mkPlayer (player_id accused) (coins accused) (l ++ [face_down c])]>
          (players g)
    ∧ deck g' ++ [c] ≡ₚ deck g ++ [r]
    ∧ length (l ++ [face_down c]) = length (influence accused)
    ∧ remaining (deck g') = remaining (deck g)
    ∧ total_player_num g' = total_player_num g
    ∧ current_player_index g' = current_player_index g
    ∧ current_player g' = current_player g
    ∧ turn_count g' = turn_count g.
Proof.
  intros E Hr.
  destruct (exchange_single_card_run g w i accused r E Hr) as (l & c & d & w' & El & HP & Ex).
  destruct (list_remove_hidden accused r Hr) as (l0 & El0 & Hlen & _).
  rewrite El in El0. simplify_eq.
  eexists l0, c, _, w'. split; [exact Ex|]. cbn.
  repeat split; try done.
  - rewrite length_app. cbn. lia.
  - unfold remaining. apply Permutation_length in HP.
    rewrite !length_app in HP. cbn in HP. lia.
Qed.

Lemma C7_swap_frame_witness :
  players (game_fresh 0) !! 0%nat
  = Some (mkPlayer 0 2 [face_down CAPTAIN; face_down DUKE])
  ∧ has_hidden_role (mkPlayer 0 2 [face_down CAPTAIN; face_down DUKE]) CAPTAIN = true
  ∧ ∃ g' w',
      exchange_single_card 0 CAPTAIN (game_fresh 0) (script []) = (Ok true, g', w')
      ∧ remaining (deck g') = remaining (deck (game_fresh 0)).
Proof.
  split; [reflexivity|]. split; [reflexivity|].
  destruct (C7_swap_frame (game_fresh 0) (script []) 0
              (mkPlayer 0 2 [face_down CAPTAIN; face_down DUKE]) CAPTAIN
              eq_refl eq_refl)
    as (l & c & g' & w' & Ex & _ & _ & _ & _ & Hd & _).
  exists g', w'. split; [exact Ex|exact Hd].
Defined.

(** ** C10: a refused selection *)

(** C10. In [exchange_two_cards] the two cards are drawn before the
    selection is checked: when the player has hidden cards, the deck has two
    cards and the selection has the wrong length, the call raises, the hands
    are as before, and the deck is left without the two drawn cards. *)
Theorem C10_exchange_failure_not_atomic {W} `{!DecisionMaker W}
    (g : GameManager) (w : W) (i : nat) (p : Player) (new_cards rest : list Role) :
  players g !! i = Some p →
  get_hidden_cards p ≠ [] →
  draw 2 (deck g) = Some (new_cards, rest) →
  length (select_cards_to_keep p new_cards (hidden_cards p) (hidden_count p) w).1
  ≠ hidden_count p →
  let r := exchange_two_cards i g w in
  outcome_of r = Raise ValueError
  ∧ players (state_of r) = players g
  ∧ deck (state_of r) = rest
  ∧ deck g = deck (state_of r) ++ reverse new_cards
  ∧ (remaining (deck (state_of r)) + 2)%nat = remaining (deck g).
Proof.
  intros E Hh Hd Hs r. subst r.
  rewrite (exchange_two_cards_bad_selection g w i p new_cards rest E Hh Hd Hs).
  cbn. unfold draw in Hd. case_decide; [done|]. simplify_eq.
  rewrite reverse_involutive, take_drop, length_take. unfold remaining.
  repeat split; lia.
Qed.

Lemma C10_exchange_failure_not_atomic_witness :
  let g := game_fresh 0 in
  let w := script [ACards [DUKE]] in
  let r := exchange_two_cards 0 g w in
  outcome_of r = Raise ValueError
  ∧ players (state_of r) = players g
  ∧ (remaining (deck (state_of r)) + 2)%nat = remaining (deck g).
Proof.
  intros g w r.
  destruct (C10_exchange_failure_not_atomic g w 0
              (mkPlayer 0 2 [face_down CAPTAIN; face_down DUKE])
              [CONTESSA; CONTESSA]
              [DUKE; ASSASSIN; ASSASSIN; CAPTAIN; CAPTAIN; AMBASSADOR; AMBASSADOR])
    as (Ho & Hp & _ & _ & Hr).
  - reflexivity.
  - discriminate.
  - reflexivity.
  - vm_compute. lia.
  - split; [exact Ho|]. split; [exact Hp|exact Hr].
Defined.

(** ** C5: the adjudication of a challenge *)

(** C5. For every accuser and claimed role and every accused who is still
    in the game, as the accused of every call in [run_game] is: if the
    accused has none of the claimed role face down, or holds the role face
    down and declines to show it, [deal_challenge] returns true and the
    accused reveals exactly one card: the hidden count of the accused drops
    by one and the other seats are untouched. *)
Theorem C5_challenge_adjudication {W} `{!DecisionMaker W}
    (g : GameManager) (w : W) (pl1 pl2 : nat) (r : Role) (accused : Player) :
  players g !! pl1 = Some accused →
  (has_hidden_role accused r = false ∧ get_hidden_cards accused ≠ [])
  ∨ (has_hidden_role accused r = true
     ∧ (Player_deal_challenge accused w).1 = false) →
  ∃ g' w' k,
    deal_challenge pl1 pl2 r g w = (Ok true, g', w')
    ∧ players g' = <[pl1:=reveal_card k accused]> (players g)
    ∧ S (hidden_count (reveal_card k accused)) = hidden_count accused.
Proof.
  intros E Hcase.
  assert (get_hidden_cards accused ≠ []) as Hh.
  { destruct Hcase as [[_ ?]|[Hr _]]; [done|].
    apply is_alive_hidden. by eapply has_hidden_role_alive. }
  assert (∀ w0, ∃ g' w' k,
             (lose_influence pl1;; ret true) g w0 = (Ok true, g', w')
             ∧ players g' = <[pl1:=reveal_card k accused]> (players g)
             ∧ S (hidden_count (reveal_card k accused)) = hidden_count accused) as Hlose.
  { intros w0.
    destruct (lose_influence_run g w0 pl1 accused E Hh) as (k & ro & w' & Hk & El).
    eexists _, w', k. rewrite (bind_ok _ _ _ _ _ _ _ El). split; [done|].
    split; [done|]. by apply reveal_hidden_count. }
  destruct Hcase as [[Hr _]|[Hr Hd]].
  - rewrite (deal_challenge_bluff _ _ _ _ _ _ E Hr). apply Hlose.
  - rewrite (deal_challenge_decline _ _ _ _ _ _ E Hr Hd). apply Hlose.
Qed.

Lemma C5_challenge_adjudication_witness :
  ∃ g' w' k,
    deal_challenge 0 1 CONTESSA (game_fresh 0) (script [AIndex 1]) = (Ok true, g', w')
    ∧ players g'
      = <[0%nat:=reveal_card k (mkPlayer 0 2 [face_down CAPTAIN; face_down DUKE])]>
          (players (game_fresh 0))
    ∧ S (hidden_count (reveal_card k (mkPlayer 0 2 [face_down CAPTAIN; face_down DUKE])))
      = hidden_count (mkPlayer 0 2 [face_down CAPTAIN; face_down DUKE]).
Proof.
  apply (C5_challenge_adjudication (game_fresh 0) (script [AIndex 1]) 0 1 CONTESSA
           (mkPlayer 0 2 [face_down CAPTAIN; face_down DUKE])).
  - reflexivity.
  - left. split; [reflexivity|discriminate].
Defined.

(** ** C6: a counter that stands *)

(** C6 (fails on the code). In [game_three_coins] seat 0 pays the 3 coins
    of an ASSASSINATE on seat 1 and nobody challenges the claim. When seat
    1 declares CONTESSA at once and nobody challenges, the turn ends there:
    the 3 coins are gone and seat 1 keeps both cards. When seat 1 first
    declines and declares CONTESSA in the second round of questions, again
    unchallenged, the turn is advanced, the [continue] of line 1242 goes on
    with the [for] loop, and the action is executed all the same: seat 1
    loses a card and the turn is advanced a second time. And when seat 1,
    who holds a CONTESSA, declares it and seat 2 challenges, the hand of
    seat 0 is examined: seat 0 loses a card, the counter counts as
    disproven and seat 1 loses a card too. The 3 coins are never given
    back. *)
Theorem C6_standing_counter_executes :
  let choice := mkChoice ASSASSINATE (Some 1) in
  let at_once :=
    run_turn game_three_coins
      (script [AChoice (Some choice); ABool false; ABool false;
               ARole (Some CONTESSA); ABool false; ABool false]) in
  let second_round :=
    run_turn game_three_coins
      (script [AChoice (Some choice); ABool false; ABool false;
               ARole None; ARole (Some CONTESSA); ABool false; ABool false;
               ARole None; AIndex 0]) in
  let challenged :=
    run_turn game_three_coins
      (script [AChoice (Some choice); ABool false; ABool false;
               ARole (Some CONTESSA); ABool true; AIndex 0; AIndex 0]) in
  coins <$> players game_three_coins = [3; 2; 2]
  ∧ hidden_count <$> players game_three_coins = [2; 2; 2]%nat
  ∧ turn_count game_three_coins = 1
  ∧ outcome_of at_once = Ok CounterStood
  ∧ queries (world_of at_once)
    = [QChoice 0; QChallenge 1 0 ASSASSIN; QChallenge 2 0 ASSASSIN;
       QCounter 1 ASSASSINATE; QChallenge 2 1 CONTESSA; QChallenge 0 1 CONTESSA]
  ∧ coins <$> players (state_of at_once) = [0; 2; 2]
  ∧ hidden_count <$> players (state_of at_once) = [2; 2; 2]%nat
  ∧ turn_count (state_of at_once) = 2
  ∧ outcome_of second_round = Ok (Executed true)
  ∧ queries (world_of second_round)
    = [QChoice 0; QChallenge 1 0 ASSASSIN; QChallenge 2 0 ASSASSIN;
       QCounter 1 ASSASSINATE; QCounter 1 ASSASSINATE;
       QChallenge 2 1 CONTESSA; QChallenge 0 1 CONTESSA;
       QCounter 0 ASSASSINATE; QReveal 1]
  ∧ coins <$> players (state_of second_round) = [0; 2; 2]
  ∧ hidden_count <$> players (state_of second_round) = [2; 1; 2]%nat
  ∧ turn_count (state_of second_round) = 3
  ∧ has_hidden_role (mkPlayer 1 2 [face_down ASSASSIN; face_down CONTESSA]) CONTESSA
    = true
  ∧ outcome_of challenged = Ok (Executed true)
  ∧ queries (world_of challenged)
    = [QChoice 0; QChallenge 1 0 ASSASSIN; QChallenge 2 0 ASSASSIN;
       QCounter 1 ASSASSINATE; QChallenge 2 1 CONTESSA; QReveal 0; QReveal 1]
  ∧ coins <$> players (state_of challenged) = [0; 2; 2]
  ∧ hidden_count <$> players (state_of challenged) = [1; 1; 2]%nat.
Proof. vm_compute. repeat split. Qed.

(** ** C9: who is out stays out *)

Section StaysOut.
Context {W : Type} `{!DecisionMaker W}.

Ltac stays_out_premises :=
  first [ exact stays_out_refl | exact stays_out_trans | exact stays_out_reveal
        | exact stays_out_hand | exact stays_out_get_coin
        | exact stays_out_lose_coin ].

Lemma frames_stays_out_run_op op : frames stays_out (run_op op).
Proof.
  destruct op; cbn [run_op];
    try (apply frames_bind;
         [stays_out_premises| |intros; apply frames_ret; stays_out_premises]).
  - apply frames_lose_influence; stays_out_premises.
  - apply frames_modify_player; [stays_out_premises|].
    intros; apply stays_out_get_coin.
  - apply frames_modify_player; [stays_out_premises|].
    intros; apply stays_out_lose_coin.
  - apply frames_exchange_single_card; stays_out_premises.
  - apply frames_exchange_two_cards; stays_out_premises.
  - apply frames_deal_challenge; stays_out_premises.
  - apply frames_process_action_cost; stays_out_premises.
  - apply frames_execute_action; stays_out_premises.
  - apply frames_advance; stays_out_premises.
  - apply frames_run_turn; stays_out_premises.
Qed.

Lemma seats_stays_out_run_ops ops g w : seats stays_out g (run_ops ops g w).1.
Proof.
  revert g w; induction ops as [|op ops IH]; intros g w; cbn [run_ops].
  - apply seats_refl, stays_out_refl.
  - eapply seats_trans; [apply stays_out_trans| |apply IH].
    apply frames_stays_out_run_op.
Qed.
End StaysOut.

(** C9. A player is alive exactly when some card of the hand is not
    revealed; and along any sequence of engine operations (reveals, coin
    changes, exchanges, challenges, costs, executions and whole turns, on
    any seats and with any answers of the players) a player who is out is
    still out at the end. *)
Theorem C9_derived_aliveness :
  (∀ p : Player,
      is_alive p = true ↔ ∃ c, c ∈ influence p ∧ is_revealed c = false)
  ∧ (∀ (W : Type) (D : DecisionMaker W) (ops : list EngineOp)
       (g : GameManager) (w : W) (i : nat) (p : Player),
        players g !! i = Some p → is_alive p = false →
        ∃ p', players (run_ops ops g w).1 !! i = Some p' ∧ is_alive p' = false).
Proof.
  split.
  - intros p. unfold is_alive, all_revealed.
    induction (influence p) as [|c l IH]; cbn.
    + split; [done|]. intros (c & Hc & _). by apply elem_of_nil in Hc.
    + destruct (is_revealed c) eqn:Ec; cbn.
      * rewrite IH. split.
        -- intros (c' & Hc' & Hr). exists c'. split; [by right|done].
        -- intros (c' & Hc' & Hr). apply elem_of_cons in Hc' as [->|Hc'];
             [congruence|]. by exists c'.
      * split; [|done]. intros _. exists c. split; [by left|done].
  - intros W D ops g w i p E Hdead.
    destruct (Forall2_lookup_l _ _ _ _ _ (seats_stays_out_run_ops ops g w) E)
      as (p' & E' & Hs).
    exists p'. split; [done|].
    destruct (is_alive p') eqn:Ha; [|done].
    rewrite (Hs Ha) in Hdead. done.
Qed.

Lemma C9_derived_aliveness_witness :
  let ops := [OpTurn; OpExchangeTwo 2; OpGetCoin 2 3; OpLoseInfluence 2; OpTurn] in
  let w := script [AChoice (Some (mkChoice COUP (Some 2)));
                   AChoice (Some (mkChoice INCOME None))] in
  players game_late !! 2%nat = Some (mkPlayer 2 2 [face_up AMBASSADOR; face_up DUKE])
  ∧ is_alive (mkPlayer 2 2 [face_up AMBASSADOR; face_up DUKE]) = false
  ∧ ∃ p', players (run_ops ops game_late w).1 !! 2%nat = Some p'
          ∧ is_alive p' = false.
Proof.
  intros ops w. split; [reflexivity|]. split; [reflexivity|].
  apply (proj2 C9_derived_aliveness Script _ ops game_late w 2%nat
           (mkPlayer 2 2 [face_up AMBASSADOR; face_up DUKE])); reflexivity.
Defined.

(** ** C8: the target id is not validated *)

(** C8 (amended). The engine rejects a missing choice and does not
    validate the target id of an action that requires one (COUP,
    ASSASSINATE, STEAL): once the choice is in, the turn goes to the
    challenge of the claim, which never sees the id, and then to the cost. The id is first looked at by [get_player_by_id], in
    the counter phase or in the handler: for an actor who can pay, a
    missing id ends the turn with a [TypeError] and an id outside
    [0 .. total_player_num - 1] with an [IndexError], both after the cost
    was taken; and the handler accepts every id in range that names a seat,
    be it the actor's own or that of a player who is out. *)
Theorem C8_target_not_validated {W} `{!DecisionMaker W}
    (g : GameManager) (w : W) (a : ActionType) (tid : option Z) (actor : Player) :
  requires_target (ACTION_CONFIG a) = true →
  players g !! current_player g = Some actor →
  coins_cost (ACTION_CONFIG a) ≤ coins actor →
  let choice := mkChoice a tid in
  let paid :=
    <[current_player g:=lose_coin (coins_cost (ACTION_CONFIG a)) actor]> (players g) in
  let r := cost_and_counter choice g w in
  (∀ w0, get_player_choice actor (get_target_list g) w0 = (None, w) →
         run_turn g w0 = (Raise ValueError, g, w))
  ∧ (∀ w0, get_player_choice actor (get_target_list g) w0 = (Some choice, w) →
         run_turn g w0
         = (do disproven <- claim_challenge_phase (mkChoice a None);
            if disproven then advance;; ret ClaimDisproven
            else cost_and_counter choice) g w)
  ∧ (tid = None → outcome_of r = Raise TypeError ∧ players (state_of r) = paid)
  ∧ (∀ t, tid = Some t → ¬ (0 ≤ t < total_player_num g) →
          outcome_of r = Raise IndexError ∧ players (state_of r) = paid)
  ∧ (∀ t tp target,
        tid = Some t → 0 ≤ t < total_player_num g →
        list_find (fun p => player_id p = t) (players g) = Some (tp, target) →
        outcome_of (execute_action (current_player g) choice g w) = Ok true).
Proof.
  intros Ha E Hle choice paid r. split.
  { intros w0 Hch. unfold run_turn. rewrite bind_get.
    rewrite (bind_ok _ _ _ _ _ _ _ (read_player_run _ _ _ _ E)).
    rewrite bind_ask, Hch. reflexivity. }
  split.
  { intros w0 Hch. unfold run_turn. rewrite bind_get.
    rewrite (bind_ok _ _ _ _ _ _ _ (read_player_run _ _ _ _ E)).
    rewrite bind_ask, Hch. reflexivity. }
  subst r. unfold cost_and_counter. rewrite bind_get.
  destruct (process_action_cost_ok g w (current_player g) a actor E Hle) as (res & Hcost).
  cbn [choice action]. rewrite (bind_ok _ _ _ _ _ _ _ Hcost). fold paid.
  set (g1 := set_players paid g).
  split; [|split].
  - intros ->. unfold counter_phase. cbn [choice target_id truthy_int andb].
    by rewrite (finish_turn_raise _ _ _ _ _ _ (execute_action_missing g1 w _ a Ha)).
  - intros t -> Hr. unfold counter_phase. cbn [choice target_id action].
    assert (¬ (0 ≤ t < total_player_num g1)) as Hr1 by done.
    destruct (truthy_int (Some t) && truthy_list (counterable_by (ACTION_CONFIG a))).
    + by rewrite (bind_raise _ _ _ _ _ _ _ (get_player_by_id_range _ _ _ Hr1)).
    + by rewrite (finish_turn_raise _ _ _ _ _ _ (execute_action_range g1 w _ a t Ha Hr1)).
  - intros t tp target -> Hr Hf. by eapply execute_action_accepts.
Qed.

Lemma C8_target_not_validated_witness :
  let actor := mkPlayer 0 7 [face_down CAPTAIN; face_down DUKE] in
  requires_target (ACTION_CONFIG COUP) = true
  ∧ players game_late !! current_player game_late = Some actor
  ∧ coins_cost (ACTION_CONFIG COUP) ≤ coins actor
  ∧ outcome_of (cost_and_counter (mkChoice COUP None) game_late (script []))
    = Raise TypeError
  ∧ outcome_of (execute_action 0 (mkChoice COUP (Some 0)) game_late (script [AIndex 1]))
    = Ok true.
Proof.
  intros actor.
  assert (players game_late !! current_player game_late = Some actor) as E
    by reflexivity.
  assert (coins_cost (ACTION_CONFIG COUP) ≤ coins actor) as Hc by (simpl; lia).
  split; [reflexivity|]. split; [exact E|]. split; [exact Hc|]. split.
  - destruct (C8_target_not_validated game_late (script []) COUP None
                actor eq_refl E Hc) as (_ & _ & Hmissing & _).
    exact (proj1 (Hmissing eq_refl)).
  - destruct (C8_target_not_validated game_late (script [AIndex 1]) COUP (Some 0)
                actor eq_refl E Hc) as (_ & _ & _ & _ & Hexec).
    apply (Hexec 0 0%nat actor eq_refl); [simpl; lia|reflexivity].
Defined.

(** C8 as first stated asks for an error before any cost is paid. The
    engine raises none for a COUP of seat 0 on itself (the actor pays and
    reveals a card of its own) nor for a COUP on seat 2, which is out (the
    actor pays for nothing); and with a missing target id the error comes
    from the handler, when the 7 coins are already paid. *)
Lemma C8_invalid_target_counterexample :
  let self := run_turn game_late
                (script [AChoice (Some (mkChoice COUP (Some 0))); AIndex 1]) in
  let dead := run_turn game_late (script [AChoice (Some (mkChoice COUP (Some 2)))]) in
  let missing := run_turn game_late (script [AChoice (Some (mkChoice COUP None))]) in
  current_player game_late = 0%nat
  ∧ is_alive <$> players game_late !! 2%nat = Some false
  ∧ outcome_of self = Ok (Executed true)
  ∧ players (state_of self) !! 0%nat
    = Some (mkPlayer 0 0 [face_down CAPTAIN; face_up DUKE])
  ∧ outcome_of dead = Ok (Executed true)
  ∧ players (state_of dead)
    = <[0%nat:=mkPlayer 0 0 [face_down CAPTAIN; face_down DUKE]]> (players game_late)
  ∧ outcome_of missing = Raise TypeError
  ∧ players (state_of missing) !! 0%nat
    = Some (mkPlayer 0 0 [face_down CAPTAIN; face_down DUKE]).
Proof. vm_compute. repeat split. Qed.

(** ** C1: the cards of an exchange *)

(** C1 (fails on the code). In [game_three_dukes] the 15 cards of a
    three-player game are in the deck and the hands. Seat 0 holds one hidden
    duke and exchanges; nobody challenges; the two cards drawn are dukes and
    the selection, made as [ComputerPlayer] makes it, keeps one duke. The
    filter [c not in selected] then returns no card at all to the deck: two
    cards are gone. *)
Theorem C1_exchange_loses_cards :
  let w := script [AChoice (Some (mkChoice EXCHANGE None)); ABool false; ABool false] in
  let r := run_turn game_three_dukes w in
  card_total game_three_dukes = length (deck_cards 0)
  ∧ length (deck_cards 0) = (5 * 3)%nat
  ∧ outcome_of r = Ok (Executed true)
  ∧ draw 2 (deck game_three_dukes) = Some ([DUKE; DUKE], deck (state_of r))
  ∧ ComputerPlayer_select_cards_to_keep [DUKE; DUKE] [DUKE] 1 = [DUKE]
  ∧ players (state_of r) !! 0%nat
    = Some (mkPlayer 0 2 [face_up CAPTAIN; face_down DUKE])
  ∧ card_total (state_of r) = 13%nat.
Proof. vm_compute. repeat split. Qed.

(** ** C2: who is accused when a counter is challenged *)

(** C2 (fails on the code). Seat 0 steals from seat 1; seat 1 declares the
    AMBASSADOR counter without holding the card; seat 2 challenges the
    counter. The engine calls [deal_challenge] with the actor, seat 0, as
    the accused: it is seat 0 that reveals a card, and seat 1 keeps both.
    In the second run seat 1 declares the same counter from inside the
    [for] loop (after declining as the target): there the declarer is the
    accused and reveals a card. *)
Theorem C2_counter_challenge_accuses_actor :
  let targeted :=
    run_turn (game_fresh 0)
      (script [AChoice (Some (mkChoice STEAL (Some 1))); ABool false; ABool false;
               ARole (Some AMBASSADOR); ABool true; AIndex 0]) in
  let looped :=
    run_turn (game_fresh 0)
      (script [AChoice (Some (mkChoice STEAL (Some 1))); ABool false; ABool false;
               ARole None; ARole (Some AMBASSADOR); ABool true; AIndex 0]) in
  has_hidden_role (mkPlayer 1 2 [face_down ASSASSIN; face_down CONTESSA]) AMBASSADOR
  = false
  ∧ outcome_of targeted = Ok (Executed true)
  ∧ queries (world_of targeted)
    = [QChoice 0; QChallenge 1 0 CAPTAIN; QChallenge 2 0 CAPTAIN;
       QCounter 1 STEAL; QChallenge 2 1 AMBASSADOR; QReveal 0]
  ∧ hidden_count <$> players (state_of targeted) !! 0%nat = Some 1%nat
  ∧ hidden_count <$> players (state_of targeted) !! 1%nat = Some 2%nat
  ∧ queries (world_of looped)
    = [QChoice 0; QChallenge 1 0 CAPTAIN; QChallenge 2 0 CAPTAIN;
       QCounter 1 STEAL; QCounter 1 STEAL; QChallenge 2 1 AMBASSADOR; QReveal 1]
  ∧ hidden_count <$> players (state_of looped) !! 0%nat = Some 2%nat
  ∧ hidden_count <$> players (state_of looped) !! 1%nat = Some 1%nat.
Proof. vm_compute. repeat split. Qed.

(** ** C3: who is asked for a counter *)

(** C3 (fails on the code). With target id 0 the test
    [choice["target_id"] and ...] is false: seat 1 steals from seat 0 and
    seat 0 is never asked for a counter. With target id 1, the target
    declines and the [for] loop, which hangs off [if target_choice], asks
    the target again and then the bystander, seat 2. For FOREIGN_AID
    nobody is asked. *)
Theorem C3_counter_declaration_polls :
  let target_zero :=
    run_turn (game_fresh 1)
      (script [AChoice (Some (mkChoice STEAL (Some 0))); ABool false; ABool false]) in
  let declined :=
    run_turn (game_fresh 0)
      (script [AChoice (Some (mkChoice STEAL (Some 1))); ABool false; ABool false;
               ARole None; ARole None; ARole None]) in
  let foreign_aid :=
    run_turn (game_fresh 0) (script [AChoice (Some (mkChoice FOREIGN_AID None))]) in
  queries (world_of target_zero)
  = [QChoice 1; QChallenge 2 1 CAPTAIN; QChallenge 0 1 CAPTAIN]
  ∧ coins <$> players (state_of target_zero) = [0; 4; 2]
  ∧ queries (world_of declined)
    = [QChoice 0; QChallenge 1 0 CAPTAIN; QChallenge 2 0 CAPTAIN;
       QCounter 1 STEAL; QCounter 1 STEAL; QCounter 2 STEAL]
  ∧ queries (world_of foreign_aid) = [QChoice 0]
  ∧ coins <$> players (state_of foreign_aid) = [4; 2; 2].
Proof. vm_compute. repeat split. Qed.


(** * More of the code *)

(** ** The deck *)

(** X1. [Deck.draw] fails exactly when more cards are asked for than remain;
    otherwise it hands out that many cards, taken from the end of the list,
    last card first, and the deck is what was in front of them. *)
Theorem Deck_draw_spec (num : nat) (cards : list Role) :
  (draw num cards = None ↔ (length cards < num)%nat)
  ∧ (∀ drawn rest,
        draw num cards = Some (drawn, rest) →
        length drawn = num
        ∧ cards = rest ++ reverse drawn
        ∧ (remaining rest + num)%nat = remaining cards).
Proof.
  unfold draw, remaining. split.
  - case_decide; split; (done || lia).
  - intros drawn rest. case_decide; [done|]. intros [= <- <-].
    rewrite length_reverse, length_drop, length_take, reverse_involutive, take_drop.
    repeat split; lia.
Qed.

Lemma Deck_draw_spec_witness :
  draw 2 [DUKE; CAPTAIN; CONTESSA] = Some ([CONTESSA; CAPTAIN], [DUKE])
  ∧ length [CONTESSA; CAPTAIN] = 2%nat
  ∧ draw 4 [DUKE; CAPTAIN; CONTESSA] = None.
Proof.
  split; [reflexivity|]. split.
  - exact (proj1 (proj2 (Deck_draw_spec 2 [DUKE; CAPTAIN; CONTESSA])
                    [CONTESSA; CAPTAIN] [DUKE] eq_refl)).
  - apply (proj1 (Deck_draw_spec 4 [DUKE; CAPTAIN; CONTESSA])). simpl. lia.
Defined.

(** X2. Drawing cards and returning them leaves the deck with the same cards
    (in the order of the shuffle) and touches nothing else. *)
Theorem draw_then_return_cards {W} `{!DecisionMaker W}
    (g : GameManager) (w : W) (num : nat) :
  (num ≤ length (deck g))%nat →
  let r := (do cards <- Deck_draw num; return_cards cards) g w in
  outcome_of r = Ok tt
  ∧ deck (state_of r) ≡ₚ deck g
  ∧ state_of r = set_deck (deck (state_of r)) g.
Proof.
  intros Hn r. subst r.
  destruct (draw_Some num (deck g) Hn) as (drawn & rest & Ed & _ & _ & Hcat).
  rewrite (bind_ok _ _ _ _ _ _ _ (Deck_draw_run _ _ _ _ _ Ed)).
  rewrite return_cards_run. cbn. split; [done|]. split; [|done].
  rewrite shuffle_perm, <- Hcat. apply Permutation_app_head.
  symmetry. apply reverse_Permutation.
Qed.

Lemma draw_then_return_cards_witness :
  let r := (do cards <- Deck_draw 2; return_cards cards) (game_fresh 0) (script []) in
  outcome_of r = Ok tt ∧ deck (state_of r) ≡ₚ deck (game_fresh 0).
Proof.
  intros r.
  destruct (draw_then_return_cards (game_fresh 0) (script []) 2) as (Ho & Hd & _).
  - simpl. lia.
  - split; [exact Ho|exact Hd].
Defined.

(** X3. [Deck(i)] holds [3 + i] copies of each of the five roles, whatever the
    shuffle does. *)
Theorem new_deck_composition (shuffle_deck : list Role → list Role) (i : Z) (r : Role) :
  (∀ l, shuffle_deck l ≡ₚ l) →
  length (List.filter (fun c => bool_decide (c = r)) (new_deck shuffle_deck i))
  = Z.to_nat (3 + i)
  ∧ length (new_deck shuffle_deck i) = (5 * Z.to_nat (3 + i))%nat.
Proof.
  intros Hperm. unfold new_deck.
  set (n := Z.to_nat (3 + i)).
  assert (∀ l l' : list Role, l ≡ₚ l' →
            length (List.filter (fun c => bool_decide (c = r)) l)
            = length (List.filter (fun c => bool_decide (c = r)) l')) as Hcount.
  { induction 1; cbn; repeat case_bool_decide; cbn; congruence. }
  rewrite (Hcount _ _ (Hperm _)), (Permutation_length (Hperm _)).
  assert (∀ c, length (List.filter (fun c0 => bool_decide (c0 = r)) (replicate n c))
               = if bool_decide (c = r) then n else 0%nat) as Hrep.
  { intros c. induction n as [|n IH]; cbn; [by case_bool_decide|].
    case_bool_decide; cbn; by rewrite IH. }
  cbn. rewrite !List.filter_app, !length_app, !Hrep, !length_replicate. cbn.
  split; [|lia]. destruct r; repeat case_bool_decide; try congruence; lia.
Qed.

Lemma new_deck_composition_witness :
  length (List.filter (fun c => bool_decide (c = DUKE)) (new_deck id 2)) = 5%nat.
Proof. exact (proj1 (new_deck_composition id 2 DUKE (fun l => reflexivity l))). Defined.

Lemma new_deck_length (shuffle_deck : list Role → list Role) (i : Z) :
  (∀ l, shuffle_deck l ≡ₚ l) →
  length (new_deck shuffle_deck i) = (5 * Z.to_nat (3 + i))%nat.
Proof.
  intros Hperm. unfold new_deck. rewrite (Permutation_length (Hperm _)). cbn.
  rewrite !length_app, !length_replicate. cbn. lia.
Qed.

Lemma deck_extra_nonneg (total : Z) : 0 ≤ deck_extra total.
Proof.
  assert (∀ fuel i, 0 ≤ i → 0 ≤ deck_extra_loop fuel total i) as Hpos.
  { induction fuel as [|fuel IH]; intros i Hi; cbn; [done|].
    destruct (_ <=? _); [apply IH; lia|done]. }
  apply Hpos. lia.
Qed.

(** X4. The sizing loop of [GameManager.__init__] leaves more cards in the new
    deck than the two per player that [initialize_players] deals. *)
Theorem deck_sized_for_players (shuffle_deck : list Role → list Role) (total : Z) :
  (∀ l, shuffle_deck l ≡ₚ l) →
  0 ≤ total →
  0 ≤ deck_extra total
  ∧ 2 * total < Z.of_nat (length (new_deck shuffle_deck (deck_extra total))).
Proof.
  intros Hperm Ht. split; [apply deck_extra_nonneg|].
  rewrite (new_deck_length shuffle_deck (deck_extra total) Hperm).
  pose proof (deck_extra_nonneg total). pose proof (deck_extra_exit total Ht). lia.
Qed.

Lemma deck_sized_for_players_witness :
  2 * 10 < Z.of_nat (length (new_deck id (deck_extra 10))).
Proof.
  apply (deck_sized_for_players id 10 (fun l => reflexivity l)). lia.
Defined.

(** ** Setting up a game *)

Lemma hands_length ps :
  length (hands ps) = sum_list_with (fun p => length (influence p)) ps.
Proof.
  unfold hands. induction ps as [|p ps IH]; cbn; [done|].
  by rewrite length_app, length_fmap, IH.
Qed.

Lemma card_total_hands g : card_total g = length (deck g ++ hands (players g)).
Proof. unfold card_total, remaining. by rewrite length_app, hands_length. Qed.

Lemma hands_reassign_ids ps : hands (reassign_ids ps) = hands ps.
Proof.
  unfold hands, reassign_ids.
  assert (∀ f : nat → Z,
            (p ← imap (fun idx p => mkPlayer (f idx) (coins p) (influence p)) ps;
             role <$> influence p)
            = (p ← ps; role <$> influence p)) as Hgen.
  { induction ps as [|p ps IH]; intros f; cbn; [done|]. f_equal.
    apply (IH (f ∘ S)). }
  apply (Hgen Z.of_nat).
Qed.

(** A dealing loop that has two cards per player succeeds. *)
Lemma deal_players_spec count idx d :
  (2 * count ≤ length d)%nat →
  ∃ ps d',
    deal_players count idx d = Some (ps, d')
    ∧ length ps = count
    ∧ Forall fresh_player ps
    ∧ d' ++ hands ps ≡ₚ d.
Proof.
  revert idx d; induction count as [|count IH]; intros idx d Hlen; cbn [deal_players].
  - exists [], d. cbn. by rewrite app_nil_r.
  - destruct (draw_Some 2 d ltac:(lia)) as (drawn & rest & Ed & Ld & Lr & Hcat).
    rewrite Ed. destruct (IH (idx + 1) rest ltac:(lia)) as (ps & d' & E & Lps & Hf & HP).
    rewrite E. eexists _, _. split; [done|]. split; [cbn; lia|].
    destruct drawn as [|a [|b [|? ?]]]; try done. split.
    + constructor; [|done]. split; [done|]. by exists a, b.
    + rewrite <- Hcat, <- HP. cbn. rewrite <- !app_assoc.
      apply Permutation_app_head. rewrite (Permutation_app_comm (hands ps)).
      cbn. apply Permutation_swap.
Qed.

(** X5. [GameManager(pls, hpls)] for 3 to 10 players, at least one of them
    human, returns a game in which the players sit at the seats their ids
    name, each with 2 coins and two hidden cards, seat 0 is on turn in turn
    1, and the deck and the hands together are the [3 + i] copies of the
    five roles. *)
Theorem new_game_spec (shuffle_deck : list Role → list Role)
    (shuffle_players : list Player → list Player) (pls hpls : Z) :
  (∀ l, shuffle_deck l ≡ₚ l) →
  (∀ l, shuffle_players l ≡ₚ l) →
  3 ≤ pls ≤ 10 →
  1 ≤ hpls ≤ pls →
  ∃ g,
    new_game shuffle_deck shuffle_players pls hpls = inr g
    ∧ seated g ∧ on_turn g ∧ current_player_index g = 0
    ∧ total_player_num g = pls
    ∧ turn_count g = 1
    ∧ Forall fresh_player (players g)
    ∧ deck g ++ hands (players g) ≡ₚ deck_cards (Z.to_nat (deck_extra pls))
    ∧ card_total g = (5 * (3 + Z.to_nat (deck_extra pls)))%nat.
Proof.
  intros Hsd Hsp Hp Hh. unfold new_game, initialize_players.
  pose proof (deck_extra_nonneg pls) as Hi.
  assert (2 * pls < Z.of_nat (length (new_deck shuffle_deck (deck_extra pls)))) as Hsize.
  { rewrite (new_deck_length shuffle_deck (deck_extra pls) Hsd).
    pose proof (deck_extra_exit pls ltac:(lia)). lia. }
  set (d := new_deck shuffle_deck (deck_extra pls)) in *.
  assert (d ≡ₚ deck_cards (Z.to_nat (deck_extra pls))) as Hd.
  { unfold d, new_deck, deck_cards. rewrite Hsd.
    by replace (Z.to_nat (3 + deck_extra pls)) with (3 + Z.to_nat (deck_extra pls))%nat
      by lia. }
  replace ((3 <=? pls) && (pls <=? 10)) with true by (symmetry; apply andb_true_iff; lia).
  replace ((1 <=? hpls) && (hpls <=? pls)) with true by (symmetry; apply andb_true_iff; lia).
  cbn [negb].
  destruct (deal_players_spec (Z.to_nat hpls) 0 d ltac:(lia))
    as (humans & d1 & E1 & L1 & F1 & P1).
  rewrite E1.
  assert (length d1 + 2 * Z.to_nat hpls = length d)%nat as Ld1.
  { rewrite <- P1, length_app, hands_length.
    assert (sum_list_with (fun p => length (influence p)) humans = 2 * length humans)%nat
      as ->; [|lia].
    clear -F1. induction F1 as [|p ps [_ (a & b & Hab)] _ IH]; cbn; [done|].
    rewrite Hab. cbn. lia. }
  destruct (deal_players_spec (Z.to_nat (pls - hpls)) 0 d1 ltac:(lia))
    as (computers & d2 & E2 & L2 & F2 & P2).
  rewrite E2.
  set (ps := reassign_ids (shuffle_players (humans ++ computers))).
  assert (length ps = Z.to_nat pls) as Lps.
  { unfold ps, reassign_ids. rewrite length_imap, Hsp, length_app. lia. }
  destruct ps as [|p0 ps'] eqn:Eps; [cbn in Lps; lia|]. rewrite <- Eps in *.
  eexists. split; [done|].
  assert (d2 ++ hands ps ≡ₚ deck_cards (Z.to_nat (deck_extra pls))) as Hcards.
  { unfold ps. rewrite hands_reassign_ids. unfold hands at 1. rewrite Hsp.
    fold (hands (humans ++ computers)). rewrite <- Hd, <- P1, <- P2.
    unfold hands. rewrite bind_app. rewrite <- !app_assoc.
    apply Permutation_app_head, Permutation_app_comm. }
  split; [|split; [|split; [|split; [|split; [|split; [|split]]]]]]; try done.
  - split; cbn [players total_player_num]; [lia|]. intros i p. unfold ps, reassign_ids.
    rewrite list_lookup_imap. destruct (_ !! i); cbn; [|done]. by intros [= <-].
  - cbn [players]. unfold ps, reassign_ids. apply Forall_forall. intros p Hin.
    apply elem_of_lookup_imap in Hin as (i & q & -> & Hq).
    assert (fresh_player q) as [Hc Hi'].
    { apply list_elem_of_lookup_2 in Hq. rewrite Hsp in Hq.
      apply elem_of_app in Hq as [Hq|Hq];
        [by eapply (proj1 (Forall_forall _ _) F1)|by eapply (proj1 (Forall_forall _ _) F2)]. }
    split; done.
  - rewrite card_total_hands. cbn [players deck].
    rewrite Hcards, deck_cards_length. done.
Qed.

Lemma new_game_spec_witness :
  ∃ g, new_game id id 4 1 = inr g
       ∧ seated g ∧ total_player_num g = 4 ∧ card_total g = 15%nat.
Proof.
  destruct (new_game_spec id id 4 1 (fun l => reflexivity l) (fun l => reflexivity l))
    as (g & E & Hs & _ & _ & Ht & _ & _ & _ & Hc); [lia..|].
  exists g. split; [exact E|]. split; [exact Hs|]. split; [exact Ht|].
  rewrite Hc. rewrite deck_extra_small by lia. reflexivity.
Defined.

(** X6. [initialize_players] refuses fewer than 3 or more than 10 players, and
    a number of human players outside [1 .. pls]: the constructor fails
    with a [ValueError] whatever the shuffles do. *)
Theorem new_game_rejects (shuffle_deck : list Role → list Role)
    (shuffle_players : list Player → list Player) (pls hpls : Z) :
  ¬ (3 ≤ pls ≤ 10) ∨ ¬ (1 ≤ hpls ≤ pls) →
  new_game shuffle_deck shuffle_players pls hpls = inl ValueError.
Proof.
  intros Hbad. unfold new_game, initialize_players.
  destruct ((3 <=? pls) && (pls <=? 10)) eqn:E1; cbn [negb]; [|done].
  destruct ((1 <=? hpls) && (hpls <=? pls)) eqn:E2; cbn [negb]; [|done].
  apply andb_true_iff in E1 as [?%Z.leb_le ?%Z.leb_le].
  apply andb_true_iff in E2 as [?%Z.leb_le ?%Z.leb_le]. lia.
Qed.

Lemma new_game_rejects_witness :
  new_game id id 2 1 = inl ValueError ∧ new_game id id 4 0 = inl ValueError.
Proof.
  split; apply new_game_rejects; [left|right]; lia.
Defined.

(** ** Finding players *)

Lemma seated_lookup g t :
  seated g → 0 ≤ t < total_player_num g →
  ∃ p, players g !! Z.to_nat t = Some p ∧ player_id p = t.
Proof.
  intros [Hlen Hid] Ht.
  destruct (lookup_lt_is_Some_2 (players g) (Z.to_nat t) ltac:(lia)) as [p Ep].
  exists p. split; [done|]. rewrite (Hid _ _ Ep). lia.
Qed.

Lemma get_player_by_id_seated {W} `{!DecisionMaker W} (g : GameManager) (w : W) t :
  seated g → 0 ≤ t < total_player_num g →
  ∃ p, players g !! Z.to_nat t = Some p ∧ player_id p = t
       ∧ get_player_by_id (Some t) g w = (Ok (Some (Z.to_nat t)), g, w).
Proof.
  intros Hs Ht. destruct (seated_lookup g t Hs Ht) as (p & Ep & Hp).
  exists p. split; [done|]. split; [done|].
  rewrite (get_player_by_id_run _ _ _ Ht).
  assert (list_find (fun q => player_id q = t) (players g) = Some (Z.to_nat t, p)) as ->;
    [|done].
  apply list_find_Some. split; [done|]. split; [done|].
  intros j y Ej Hj. rewrite (proj2 Hs _ _ Ej). lia.
Qed.

(** X7. In a seated game [get_player_by_id] finds, for an id in range, the
    player at the seat of that number; an id out of range is an
    [IndexError] and a missing id a [TypeError]; the state is never
    touched. *)
Theorem get_player_by_id_spec {W} `{!DecisionMaker W} (g : GameManager) (w : W) :
  seated g →
  (∀ t, 0 ≤ t < total_player_num g →
        ∃ p, players g !! Z.to_nat t = Some p ∧ player_id p = t
             ∧ get_player_by_id (Some t) g w = (Ok (Some (Z.to_nat t)), g, w))
  ∧ (∀ t, ¬ (0 ≤ t < total_player_num g) →
          get_player_by_id (Some t) g w = (Raise IndexError, g, w))
  ∧ get_player_by_id None g w = (Raise TypeError, g, w).
Proof.
  intros Hs. split; [|split; [|done]].
  - intros t Ht. by apply get_player_by_id_seated.
  - intros t Ht. by apply get_player_by_id_range.
Qed.

Lemma get_player_by_id_spec_witness :
  seated (game_fresh 0)
  ∧ get_player_by_id (Some 2) (game_fresh 0) (script []) = (Ok (Some 2%nat), game_fresh 0, script [])
  ∧ get_player_by_id (Some 3) (game_fresh 0) (script [])
    = (Raise IndexError, game_fresh 0, script []).
Proof.
  assert (seated (game_fresh 0)) as Hs.
  { split; [reflexivity|]. intros [|[|[|i]]] p; cbn; intros [= <-]; reflexivity. }
  split; [exact Hs|]. split.
  - destruct (proj1 (get_player_by_id_spec (game_fresh 0) (script []) Hs) 2)
      as (p & _ & _ & E); [simpl; lia|exact E].
  - apply (proj1 (proj2 (get_player_by_id_spec (game_fresh 0) (script []) Hs)) 3).
    simpl. lia.
Defined.

Section NextPlayer.
Context {W : Type} `{!DecisionMaker W}.
Implicit Types (g : GameManager) (w : W).

Lemma player_at_seated g w t :
  Z.of_nat (length (players g)) = total_player_num g →
  0 ≤ t < total_player_num g →
  player_at t g w = (Ok (Z.to_nat t), g, w).
Proof.
  intros Hlen Ht. rewrite player_at_run. unfold py_index.
  replace ((0 <=? t) && (t <? Z.of_nat (length (players g)))) with true; [done|].
  symmetry. apply andb_true_iff. split; [apply Z.leb_le|apply Z.ltb_lt]; lia.
Qed.

(** The loop of [get_current_player] stops at the first seat, from
    [t_index] on, whose player is alive. *)
Lemma next_alive_finds fuel t g w (j : nat) q :
  Z.of_nat (length (players g)) = total_player_num g →
  0 ≤ t < total_player_num g →
  (j < fuel)%nat →
  players g !! Z.to_nat ((t + Z.of_nat j) mod total_player_num g) = Some q →
  is_alive q = true →
  ∃ (j' : nat) q',
    (j' ≤ j)%nat
    ∧ next_alive fuel t g w
      = (Ok ((t + Z.of_nat j') mod total_player_num g), g, w)
    ∧ players g !! Z.to_nat ((t + Z.of_nat j') mod total_player_num g) = Some q'
    ∧ is_alive q' = true
    ∧ ∀ k : nat, (k < j')%nat →
        ∃ pk, players g !! Z.to_nat ((t + Z.of_nat k) mod total_player_num g) = Some pk
              ∧ is_alive pk = false.
Proof.
  intros Hlen. revert t j.
  induction fuel as [|fuel IH]; intros t j Ht Hj Eq Hq; [lia|].
  cbn [next_alive].
  rewrite (bind_ok _ _ _ _ _ _ _ (player_at_seated g w t Hlen Ht)).
  destruct (lookup_lt_is_Some_2 (players g) (Z.to_nat t) ltac:(lia)) as [p0 E0].
  rewrite (bind_ok _ _ _ _ _ _ _ (read_player_run _ _ _ _ E0)).
  destruct (is_alive p0) eqn:H0.
  - exists 0%nat, p0. rewrite Z.add_0_r, Z.mod_small by done.
    split; [lia|]. split; [done|]. split; [done|]. split; [done|]. intros k Hk. lia.
  - destruct j as [|j].
    { rewrite Z.add_0_r, Z.mod_small in Eq by done. congruence. }
    rewrite bind_get.
    assert (total_player_num g ≠ 0) as Hn by lia.
    rewrite (bind_ok _ _ _ _ _ _ _ (py_mod_run _ _ _ _ Hn)).
    assert (∀ x : Z, ((t + 1) mod total_player_num g + x) mod total_player_num g
                     = (t + (1 + x)) mod total_player_num g) as Hshift.
    { intros x. rewrite Zplus_mod_idemp_l. f_equal. lia. }
    destruct (IH ((t + 1) mod total_player_num g) j
                ltac:(apply Z.mod_pos_bound; lia) ltac:(lia)) as (j' & q' & Hj' & En & Eq' & Hq' & Hdead).
    { rewrite Hshift. by replace (1 + Z.of_nat j) with (Z.of_nat (S j)) by lia. }
    { done. }
    exists (S j'), q'.
    replace (Z.of_nat (S j')) with (1 + Z.of_nat j') by lia. rewrite <- Hshift.
    split; [lia|]. split; [done|]. split; [done|]. split; [done|].
    intros [|k] Hk.
    + exists p0. by rewrite Z.add_0_r, Z.mod_small.
    + destruct (Hdead k ltac:(lia)) as (pk & Ek & Hpk). exists pk.
      replace (Z.of_nat (S k)) with (1 + Z.of_nat k) by lia.
      by rewrite <- Hshift.
Qed.
End NextPlayer.

(** X8. In a seated game in which somebody is alive, [advance] returns: the
    turn goes to the first living player among the seats that follow the
    current one in the round, the seats passed over hold players who are
    out, [current_player] and [current_player_index] name that same seat,
    the turn counter grows by one and nothing else changes. *)
Theorem advance_spec {W} `{!DecisionMaker W} (g : GameManager) (w : W) (i : nat) (p : Player) :
  seated g →
  players g !! i = Some p → is_alive p = true →
  ∃ (j : nat) (q : Player),
    let t := (current_player_index g + 1 + Z.of_nat j) mod total_player_num g in
    advance g w
    = (Ok tt,
       mkGameManager (total_player_num g) (deck g) (players g) t (Z.to_nat t)
                     (turn_count g + 1),
       w)
    ∧ 0 ≤ t < total_player_num g
    ∧ players g !! Z.to_nat t = Some q ∧ is_alive q = true
    ∧ ∀ k : nat, (k < j)%nat →
        ∃ pk, players g !! Z.to_nat ((current_player_index g + 1 + Z.of_nat k)
                                      mod total_player_num g) = Some pk
              ∧ is_alive pk = false.
Proof.
  intros [Hlen Hid] Ei Hp.
  pose proof (lookup_lt_Some _ _ _ Ei) as Hi.
  set (n := total_player_num g) in *.
  assert (0 < n) as Hn by lia.
  set (t0 := (current_player_index g + 1) mod n).
  assert (0 ≤ t0 < n) as Ht0 by (apply Z.mod_pos_bound; lia).
  set (j0 := Z.to_nat ((Z.of_nat i - t0) mod n)).
  assert (0 ≤ (Z.of_nat i - t0) mod n < n) as Hj0 by (apply Z.mod_pos_bound; lia).
  assert ((t0 + Z.of_nat j0) mod n = Z.of_nat i) as Hseat.
  { unfold j0. rewrite Z2Nat.id by lia. rewrite Zplus_mod_idemp_r.
    replace (t0 + (Z.of_nat i - t0)) with (Z.of_nat i) by lia.
    apply Z.mod_small. lia. }
  destruct (next_alive_finds (Z.abs_nat n) t0 g w j0 p Hlen Ht0) as
    (j & q & Hj & En & Eq & Hq & Hdead).
  { unfold j0. lia. }
  { fold n. rewrite Hseat, Nat2Z.id. done. }
  { done. }
  fold n in En, Eq, Hdead.
  assert (∀ x : Z, (t0 + x) mod n = (current_player_index g + 1 + x) mod n) as Hshift.
  { intros x. unfold t0. by rewrite Zplus_mod_idemp_l. }
  exists j, q. cbv zeta. rewrite <- !Hshift.
  set (t := (t0 + Z.of_nat j) mod n) in *.
  assert (0 ≤ t < n) as Ht by (apply Z.mod_pos_bound; lia).
  split; [|split; [done|split; [done|split; [done|]]]].
  - assert (get_current_player g w
            = (Ok (Z.to_nat t), set_current_player_index t g, w)) as Hgcp.
    { unfold get_current_player. rewrite bind_get.
      assert (n ≠ 0) as Hn0 by lia.
      rewrite (bind_ok _ _ _ _ _ _ _ (py_mod_run _ _ _ _ Hn0)).
      fold n t0. rewrite (bind_ok _ _ _ _ _ _ _ En).
      unfold bind at 1. unfold modify_gm at 1. cbv iota beta.
      by rewrite (player_at_seated _ w t). }
    unfold advance. rewrite (bind_ok _ _ _ _ _ _ _ Hgcp). reflexivity.
  - intros k Hk. destruct (Hdead k Hk) as (pk & Ek & Hpk). exists pk.
    by rewrite <- Hshift.
Qed.

Lemma advance_spec_witness :
  seated game_late
  ∧ advance game_late (script [])
    = (Ok tt,
       mkGameManager 3 (deck game_late) (players game_late) 1 1 2,
       script []).
Proof.
  assert (seated game_late) as Hs.
  { split; [reflexivity|]. intros [|[|[|i]]] p; cbn; intros [= <-]; reflexivity. }
  split; [exact Hs|].
  destruct (advance_spec game_late (script []) 1
              (mkPlayer 1 2 [face_down ASSASSIN; face_down CONTESSA]) Hs eq_refl eq_refl)
    as (j & q & E & _ & _ & _ & Hdead).
  destruct j as [|j].
  - exact E.
  - destruct (Hdead 0%nat ltac:(lia)) as (pk & Ek & Hpk).
    vm_compute in Ek. injection Ek as <-. discriminate Hpk.
Defined.

(** ** What a player is shown and what [ComputerPlayer] answers *)

Lemma get_target_list_sound (g : GameManager) (x : TargetInfo) :
  x ∈ get_target_list g →
  ∃ i p, players g !! i = Some p ∧ i ≠ current_player g ∧ is_alive p = true
         ∧ x = mkTargetInfo (player_id p) (coins p) (hidden_count p).
Proof.
  unfold get_target_list. rewrite list_elem_of_omap.
  intros ([i p] & Hin & Hx). apply elem_of_lookup_imap in Hin as (i' & p' & [= -> ->] & E).
  case_bool_decide; [done|]. destruct (is_alive p') eqn:Ha; [|done].
  injection Hx as <-. by exists i', p'.
Qed.

(** X9. The target list holds exactly the living players other than the one on
    turn, each with its id, its coins and the number of its hidden cards. *)
Theorem get_target_list_spec (g : GameManager) (x : TargetInfo) :
  x ∈ get_target_list g ↔
  ∃ i p, players g !! i = Some p ∧ i ≠ current_player g ∧ is_alive p = true
         ∧ x = mkTargetInfo (player_id p) (coins p) (hidden_count p).
Proof.
  split; [apply get_target_list_sound|].
  unfold get_target_list. rewrite list_elem_of_omap.
  - intros (i & p & E & Hi & Ha & ->). exists (i, p). split.
    + apply elem_of_lookup_imap. by exists i, p.
    + rewrite bool_decide_eq_false_2 by done. by rewrite Ha.
Qed.

Lemma get_target_list_spec_witness :
  mkTargetInfo 1 2 2 ∈ get_target_list game_late.
Proof.
  apply (proj2 (get_target_list_spec game_late (mkTargetInfo 1 2 2))).
  exists 1%nat, (mkPlayer 1 2 [face_down ASSASSIN; face_down CONTESSA]).
  split; [reflexivity|]. split; [discriminate|]. split; reflexivity.
Defined.

Lemma get_available_actions_nonempty p : get_available_actions p ≠ [].
Proof.
  unfold get_available_actions. cbv zeta.
  destruct (3 <=? coins p), (7 <=? coins p), (10 <=? coins p); discriminate.
Qed.

Lemma random_choice_elem {A} (k : nat) (l : list A) :
  l ≠ [] → ∃ x, random_choice k l = Some x ∧ x ∈ l.
Proof.
  intros Hl. unfold random_choice.
  destruct (lookup_lt_is_Some_2 l (k mod length l)%nat) as [x Ex].
  { apply Nat.mod_upper_bound. by destruct l. }
  exists x. split; [done|]. by eapply list_elem_of_lookup_2.
Qed.

(** X10. In a seated game [ComputerPlayer.get_player_choice] always returns a
    choice; its action is one of the player's legal actions; a target id, if
    there is one, belongs to an action that requires a target and names the
    seat of a living player other than the one on turn; and there is none
    only for an action without target or when nobody can be targeted. *)
Theorem ComputerPlayer_choice_legal (g : GameManager) (actor : Player)
    (k_action k_target : nat) :
  seated g →
  ∃ c,
    ComputerPlayer_get_player_choice actor (get_target_list g) k_action k_target = Some c
    ∧ action c ∈ get_available_actions actor
    ∧ (∀ t, target_id c = Some t →
            requires_target (ACTION_CONFIG (action c)) = true
            ∧ ∃ i p, players g !! i = Some p ∧ t = Z.of_nat i
                     ∧ i ≠ current_player g ∧ is_alive p = true)
    ∧ (target_id c = None →
       requires_target (ACTION_CONFIG (action c)) = false ∨ get_target_list g = []).
Proof.
  intros [_ Hid]. unfold ComputerPlayer_get_player_choice. cbv zeta.
  pose proof (get_available_actions_nonempty actor) as Hne.
  destruct (random_choice_elem k_action _ Hne) as (a & Ea & Ha).
  destruct (get_available_actions actor) as [|a0 acts] eqn:Eacts; [done|].
  cbn [truthy_list negb]. rewrite Ea.
  destruct (requires_target (ACTION_CONFIG a)) eqn:Hrt; cbn [andb].
  - destruct (get_target_list g) as [|x0 tl] eqn:Etl; cbn [truthy_list].
    + exists (mkChoice a None). cbn. split; [done|]. split; [done|].
      split; [done|]. by right.
    + destruct (random_choice_elem k_target (x0 :: tl) ltac:(done)) as (x & Ex & Hx).
      rewrite Ex. exists (mkChoice a (Some (ti_player_id x))). cbn.
      split; [done|]. split; [done|]. split; [|done].
      intros t [= <-]. split; [done|].
      rewrite <- Etl in Hx. apply get_target_list_sound in Hx
        as (i & p & E & Hi & Halive & ->).
      exists i, p. cbn. rewrite (Hid _ _ E). done.
  - exists (mkChoice a None). cbn. split; [done|]. split; [done|].
    split; [done|]. by left.
Qed.

Lemma ComputerPlayer_choice_legal_witness :
  ∃ c, ComputerPlayer_get_player_choice (mkPlayer 0 7 [face_down CAPTAIN; face_down DUKE])
         (get_target_list game_late) 6 5 = Some c
       ∧ action c ∈ get_available_actions (mkPlayer 0 7 [face_down CAPTAIN; face_down DUKE]).
Proof.
  assert (seated game_late) as Hs.
  { split; [reflexivity|]. intros [|[|[|i]]] p; cbn; intros [= <-]; reflexivity. }
  destruct (ComputerPlayer_choice_legal game_late
              (mkPlayer 0 7 [face_down CAPTAIN; face_down DUKE]) 6 5 Hs)
    as (c & E & Ha & _).
  exists c. split; [exact E|exact Ha].
Defined.

(** X11. [ComputerPlayer.target_answer] declares a counter only on a lucky draw
    and only for an action that can be countered; the role it declares is
    one that counters the action, the heaviest of them. *)
Theorem ComputerPlayer_target_answer_spec (act : ActionType) (lucky : bool) :
  (∀ r, ComputerPlayer_target_answer act lucky = Some r →
        lucky = true
        ∧ r ∈ counterable_by (ACTION_CONFIG act)
        ∧ Forall (heavier_first r) (counterable_by (ACTION_CONFIG act)))
  ∧ (lucky = true → counterable_by (ACTION_CONFIG act) ≠ [] →
     is_Some (ComputerPlayer_target_answer act lucky))
  ∧ (lucky = false ∨ counterable_by (ACTION_CONFIG act) = [] →
     ComputerPlayer_target_answer act lucky = None).
Proof.
  split; [|split].
  - intros r. destruct act, lucky; cbn; try discriminate; intros [= <-];
      (split; [done|]); (split; [rewrite ?elem_of_cons; auto|]);
      repeat constructor; unfold heavier_first; cbn; lia.
  - intros -> Hne. destruct act; cbn in *; by eauto.
  - intros Hcase. destruct act, lucky; cbn in *; try done; by destruct Hcase.
Qed.

Lemma ComputerPlayer_target_answer_spec_witness :
  ComputerPlayer_target_answer STEAL true = Some CAPTAIN
  ∧ ComputerPlayer_target_answer TAX true = None.
Proof.
  split.
  - destruct (proj1 (proj2 (ComputerPlayer_target_answer_spec STEAL true))
                eq_refl ltac:(discriminate)) as [r Er].
    rewrite Er. f_equal.
    destruct (proj1 (ComputerPlayer_target_answer_spec STEAL true) r Er)
      as (_ & Hin & Hh).
    inversion Hh as [|? ? Hc _]. unfold heavier_first in Hc.
    cbn in Hin. rewrite !elem_of_cons, elem_of_nil in Hin.
    destruct Hin as [->|[->|[]]]; [reflexivity|cbn in Hc; lia].
  - apply (proj2 (proj2 (ComputerPlayer_target_answer_spec TAX true))). by right.
Defined.

(** *** [ComputerPlayer.select_cards_to_keep] *)

Lemma insert_by_weight_perm c l : insert_by_weight c l ≡ₚ c :: l.
Proof.
  induction l as [|x l IH]; cbn; [done|].
  destruct (role_weight x <? role_weight c); [done|].
  rewrite IH. apply Permutation_swap.
Qed.

Lemma insert_by_weight_sorted c l :
  StronglySorted heavier_first l → StronglySorted heavier_first (insert_by_weight c l).
Proof.
  induction 1 as [|x l Hs IH Hx]; cbn.
  - repeat constructor.
  - destruct (Z.ltb_spec (role_weight x) (role_weight c)).
    + constructor; [by constructor|]. constructor; [unfold heavier_first; lia|].
      eapply Forall_impl; [exact Hx|]. unfold heavier_first. intros; lia.
    + constructor; [done|]. rewrite insert_by_weight_perm.
      constructor; [unfold heavier_first; lia|done].
Qed.

Lemma sorted_by_weight_spec l :
  sorted_by_weight l ≡ₚ l ∧ StronglySorted heavier_first (sorted_by_weight l).
Proof.
  unfold sorted_by_weight.
  assert (∀ acc, StronglySorted heavier_first acc →
            foldl (fun acc c => insert_by_weight c acc) acc l ≡ₚ acc ++ l
            ∧ StronglySorted heavier_first
                (foldl (fun acc c => insert_by_weight c acc) acc l)) as Hgen.
  { induction l as [|c l IH]; intros acc Hacc; cbn.
    - by rewrite app_nil_r.
    - destruct (IH (insert_by_weight c acc) (insert_by_weight_sorted c acc Hacc))
        as [HP HS].
      split; [|done]. rewrite HP, insert_by_weight_perm.
      cbn. apply Permutation_middle. }
  apply (Hgen []). constructor.
Qed.

Lemma sorted_take_drop (l : list Role) (k : nat) a b :
  StronglySorted heavier_first l → a ∈ take k l → b ∈ drop k l → heavier_first a b.
Proof.
  intros Hs. revert k. induction Hs as [|x l Hs IH Hx]; intros k Ha Hb.
  - rewrite take_nil in Ha. by apply elem_of_nil in Ha.
  - destruct k as [|k]; cbn in *; [by apply elem_of_nil in Ha|].
    apply elem_of_cons in Ha as [->|Ha]; [|by eapply IH].
    apply (proj1 (Forall_forall _ _) Hx). by eapply (subseteq_drop k l).
Qed.

(** X12. [ComputerPlayer.select_cards_to_keep] honours the contract of the
    exchange: it keeps exactly [keep_count] of the cards offered (all of
    them when there are fewer), what it keeps and what it leaves are
    together the cards offered, and no card it leaves is heavier than a
    card it keeps. *)
Theorem ComputerPlayer_select_cards_to_keep_spec
    (new_cards hidden : list Role) (keep_count : nat) :
  let kept := ComputerPlayer_select_cards_to_keep new_cards hidden keep_count in
  length kept = (keep_count `min` length (new_cards ++ hidden))%nat
  ∧ ∃ left,
      kept ++ left ≡ₚ new_cards ++ hidden
      ∧ ∀ a b, a ∈ kept → b ∈ left → role_weight b ≤ role_weight a.
Proof.
  intros kept. subst kept. unfold ComputerPlayer_select_cards_to_keep.
  destruct (sorted_by_weight_spec (new_cards ++ hidden)) as [HP HS].
  split.
  - rewrite length_take. by rewrite (Permutation_length HP).
  - exists (drop keep_count (sorted_by_weight (new_cards ++ hidden))).
    split; [by rewrite take_drop|].
    intros a b Ha Hb. by apply (sorted_take_drop _ keep_count a b HS).
Qed.

Lemma ComputerPlayer_select_cards_to_keep_spec_witness :
  length (ComputerPlayer_select_cards_to_keep [CONTESSA; DUKE] [CAPTAIN] 1) = 1%nat.
Proof.
  exact (proj1 (ComputerPlayer_select_cards_to_keep_spec [CONTESSA; DUKE] [CAPTAIN] 1)).
Defined.

(** ** The hand *)

(** X13. The hidden and the revealed cards split the hand; [has_role] looks at
    both parts and [has_hidden_role] at the hidden one. *)
Theorem hand_partition (p : Player) :
  hidden_cards p ++ revealed_cards p ≡ₚ role <$> influence p
  ∧ (∀ r, has_hidden_role p r = true ↔ r ∈ hidden_cards p)
  ∧ (∀ r, has_role p r = true ↔ r ∈ hidden_cards p ∨ r ∈ revealed_cards p).
Proof.
  unfold hidden_cards, revealed_cards, get_hidden_cards, hidden_of,
    has_hidden_role, has_role.
  induction (influence p) as [|[r0 b] l (IH1 & IH2 & IH3)].
  - cbn. split; [done|]. split; intros r; split; try done.
    + by intros ?%elem_of_nil.
    + by intros [?%elem_of_nil|?%elem_of_nil].
  - split; [|split].
    + destruct b; cbn; [|by rewrite IH1].
      by rewrite <- Permutation_middle, IH1.
    + intros r. cbn [existsb role is_revealed].
      rewrite orb_true_iff, andb_true_iff, bool_decide_eq_true, negb_true_iff, (IH2 r).
      destruct b; cbn; rewrite ?elem_of_cons; intuition congruence.
    + intros r. cbn [existsb role is_revealed].
      rewrite orb_true_iff, bool_decide_eq_true, (IH3 r).
      destruct b; cbn; rewrite ?elem_of_cons; intuition congruence.
Qed.

Lemma hand_partition_witness :
  has_hidden_role (mkPlayer 0 2 [face_down DUKE; face_up CAPTAIN]) DUKE = true.
Proof.
  apply (proj2 (proj1 (proj2 (hand_partition
                                (mkPlayer 0 2 [face_down DUKE; face_up CAPTAIN]))) DUKE)).
  vm_compute. constructor.
Defined.

(** ** Invariants of a turn *)

Section KeepsBasics.
Context {W : Type} `{!DecisionMaker W}.
Variable I : GameManager → Prop.

Lemma keeps_bind {A B} (m : M W A) (f : A → M W B) :
  keeps I m → (∀ a, keeps I (f a)) → keeps I (bind m f).
Proof.
  intros Hm Hf g w HI. unfold bind. specialize (Hm g w HI).
  destruct (m g w) as [[[a|e|] g'] w']; cbn in *; [by apply Hf|done..].
Qed.

Lemma keeps_reads {A} (m : M W A) : reads m → keeps I m.
Proof. intros Hm g w HI. by rewrite Hm. Qed.

Lemma keeps_modify_gm f : (∀ g, I g → I (f g)) → keeps I (@modify_gm W f).
Proof. intros Hf g w HI. by apply Hf. Qed.

Lemma reads_diverge {A} : reads (@diverge W A).
Proof. done. Qed.

Lemma reads_next_alive fuel t : reads (@next_alive W fuel t).
Proof.
  revert t; induction fuel as [|fuel IH]; intros t; cbn [next_alive]; [done|].
  apply reads_bind; [apply reads_player_at|intros p].
  apply reads_bind; [apply reads_read_player|intros q].
  destruct (is_alive q); [done|].
  apply reads_bind; [done|intros g0].
  apply reads_bind; [apply reads_py_mod|intros t']. apply IH.
Qed.
End KeepsBasics.

Ltac keeps_step :=
  lazymatch goal with
  | |- keeps _ (bind _ _) => apply keeps_bind; [|intros]
  | |- keeps _ (if ?b then _ else _) => destruct b
  | |- keeps _ (match ?x with _ => _ end) => destruct x
  | |- keeps _ _ =>
      first [ solve [auto]
            | apply keeps_reads;
              first [ apply reads_ret | apply reads_raise | apply reads_diverge
                    | apply reads_get_gm | apply reads_ask | apply reads_py_mod
                    | apply reads_player_at | apply reads_read_player
                    | apply reads_get_player_by_id | apply reads_next_alive
                    | apply reads_poll_challengers ] ]
  end.
Ltac keeps_auto := cbv zeta; repeat keeps_step.

(** What holds for the steps that touch the players and the deck holds for
    the turn that is made of them. [ok] says which choices are covered. *)
Section Keeps.
Context {W : Type} `{!DecisionMaker W}.
Variable I : GameManager → Prop.
Variable ok : Choice → Prop.
Hypothesis H_lose : ∀ i, keeps I (lose_influence i).
Hypothesis H_swap : ∀ i r, keeps I (exchange_single_card i r).
Hypothesis H_advance : keeps I (@advance W).
Hypothesis H_cost : ∀ i a, keeps I (@process_action_cost W i a).
Hypothesis H_exec : ∀ actor c, ok c → keeps I (execute_action actor c).

Lemma keeps_deal_challenge pl1 pl2 r : keeps I (deal_challenge pl1 pl2 r).
Proof. unfold deal_challenge. keeps_auto. Qed.

#[local] Hint Resolve keeps_deal_challenge : core.

Lemma keeps_counter_declaration_loop choice offs :
  keeps I (counter_declaration_loop choice offs).
Proof. induction offs as [|o offs IH]; cbn [counter_declaration_loop]; keeps_auto. Qed.

#[local] Hint Resolve keeps_counter_declaration_loop : core.

Lemma keeps_finish_turn choice : ok choice → keeps I (finish_turn choice).
Proof. intros Hok. unfold finish_turn. keeps_auto. Qed.

Lemma keeps_counter_phase choice : ok choice → keeps I (counter_phase choice).
Proof.
  intros Hok. pose proof (keeps_finish_turn choice Hok).
  unfold counter_phase. keeps_auto.
Qed.

Lemma keeps_cost_and_counter choice : ok choice → keeps I (cost_and_counter choice).
Proof.
  intros Hok. pose proof (keeps_counter_phase choice Hok).
  unfold cost_and_counter. keeps_auto.
Qed.

Lemma keeps_claim_challenge_phase choice : keeps I (claim_challenge_phase choice).
Proof. unfold claim_challenge_phase. keeps_auto. Qed.

(** One iteration of the loop of [run_game], when the choice that comes in
    is covered. *)
Lemma keeps_run_turn g w :
  I g →
  (∀ actor c,
      players g !! current_player g = Some actor →
      (get_player_choice actor (get_target_list g) w).1 = Some c → ok c) →
  I (state_of (run_turn g w)).
Proof.
  intros HI Hok. unfold run_turn. rewrite bind_get.
  destruct (players g !! current_player g) as [actor|] eqn:E; cycle 1.
  { by rewrite (bind_raise _ _ _ _ _ _ _ (read_player_stale _ _ _ E)). }
  rewrite (bind_ok _ _ _ _ _ _ _ (read_player_run _ _ _ _ E)), bind_ask.
  destruct (get_player_choice actor (get_target_list g) w).1 as [c|] eqn:Ec; [|done].
  specialize (Hok actor c eq_refl Ec).
  pose proof (keeps_cost_and_counter c Hok).
  pose proof (keeps_claim_challenge_phase c).
  assert (keeps I (do disproven <- claim_challenge_phase c;
                   if disproven then advance;; ret ClaimDisproven
                   else cost_and_counter c)) as Hk by keeps_auto.
  by apply Hk.
Qed.

Lemma keeps_run_turns n : (∀ c, ok c) → keeps I (run_turns n).
Proof.
  intros Hok. induction n as [|n IH]; cbn [run_turns]; [by apply keeps_reads|].
  apply keeps_bind; [by apply keeps_reads|intros g0].
  destruct (is_game_over g0); [by apply keeps_reads|].
  apply keeps_bind; [|intros; apply IH].
  intros g w HI. apply keeps_run_turn; auto.
Qed.
End Keeps.

(** *** The number of players and their seats *)

Section Total.
Context {W : Type} `{!DecisionMaker W}.
Variable N : Z.
Let I := fun g => total_player_num g = N.

Lemma keeps_total_modify_gm f :
  (∀ g, total_player_num (f g) = total_player_num g) → keeps I (@modify_gm W f).
Proof. intros Hf. apply keeps_modify_gm. unfold I. intros g HI. by rewrite Hf. Qed.

Lemma keeps_total_modify_player i f : keeps I (@modify_player W i f).
Proof. by apply keeps_total_modify_gm. Qed.

#[local] Hint Resolve keeps_total_modify_player : core.

Lemma keeps_total_Deck_draw num : keeps I (@Deck_draw W num).
Proof. unfold Deck_draw. keeps_auto. by apply keeps_total_modify_gm. Qed.

Lemma keeps_total_return_cards cards : keeps I (return_cards cards).
Proof. unfold return_cards. keeps_auto. by apply keeps_total_modify_gm. Qed.

#[local] Hint Resolve keeps_total_Deck_draw keeps_total_return_cards : core.

Lemma keeps_total_lose_influence i : keeps I (lose_influence i).
Proof. unfold lose_influence. keeps_auto. Qed.

Lemma keeps_total_exchange_single_card i r : keeps I (exchange_single_card i r).
Proof. unfold exchange_single_card. keeps_auto. Qed.

Lemma keeps_total_exchange_two_cards i : keeps I (exchange_two_cards i).
Proof. unfold exchange_two_cards. keeps_auto. Qed.

Lemma keeps_total_advance : keeps I (@advance W).
Proof.
  unfold advance, get_current_player. keeps_auto; by apply keeps_total_modify_gm.
Qed.

Lemma keeps_total_process_action_cost i a : keeps I (@process_action_cost W i a).
Proof. unfold process_action_cost. keeps_auto. Qed.

#[local] Hint Resolve keeps_total_lose_influence keeps_total_exchange_two_cards : core.

Lemma keeps_total_execute_action actor c : keeps I (execute_action actor c).
Proof.
  unfold execute_action.
  destruct (action c);
    unfold IncomeHandler, ForeignAidHandler, TaxHandler, StealHandler,
      AssassinateHandler, CoupHandler, ExchangeHandler;
    keeps_auto.
Qed.

Lemma keeps_total_run_turns n : keeps I (run_turns n).
Proof.
  apply (keeps_run_turns I (fun _ => True));
    auto using keeps_total_lose_influence, keeps_total_exchange_single_card,
      keeps_total_advance, keeps_total_process_action_cost,
      keeps_total_execute_action.
Qed.
End Total.

Lemma same_id_ids (l l' : list Player) :
  Forall2 same_id l l' → player_id <$> l' = player_id <$> l.
Proof. induction 1 as [|p p' ps ps' Hp _ IH]; cbn; [done|]. by f_equal. Qed.

Lemma seated_seats (g g' : GameManager) :
  seated g → total_player_num g' = total_player_num g → seats same_id g g' →
  seated g'
  ∧ total_player_num g' = total_player_num g
  ∧ player_id <$> players g' = player_id <$> players g.
Proof.
  intros [Hlen Hid] Ht Hs.
  split; [|split; [done|by apply same_id_ids]]. split.
  - rewrite Ht, <- Hlen. f_equal. by rewrite <- (Forall2_length _ _ _ Hs).
  - intros i p' E'.
    destruct (Forall2_lookup_r _ _ _ _ _ Hs E') as (p & E & Hp).
    rewrite Hp. by apply Hid.
Qed.

(** X14. The seating lasts: through any number of turns, with any answers of
    the players and whether the loop returns, raises or hangs, the number
    of players stays what it was and every player keeps its seat and its
    id, so that [get_player_by_id] goes on finding the player of seat [t]
    under the id [t]. This holds of the loop from any state, and of
    [run_game], the loop after its first line. *)
Theorem seated_run_turns {W} `{!DecisionMaker W} (g : GameManager) (w : W) (n : nat) :
  seated g →
  (let g' := state_of (run_turns n g w) in
   seated g'
   ∧ total_player_num g' = total_player_num g
   ∧ player_id <$> players g' = player_id <$> players g)
  ∧ (let g' := state_of (run_game n g w) in
     seated g'
     ∧ total_player_num g' = total_player_num g
     ∧ player_id <$> players g' = player_id <$> players g).
Proof.
  intros Hs.
  assert (∀ g0, seats same_id g0 (state_of (run_turns n g0 w))) as Hframe.
  { intros g0. apply frames_run_turns; unfold same_id; try done. intros; congruence. }
  split; cbv zeta.
  - apply seated_seats; [done| |apply Hframe].
    by apply (keeps_total_run_turns (total_player_num g) n g w).
  - rewrite run_game_run.
    destruct (py_index (length (players g)) 0) as [first|]; [|by destruct Hs].
    apply (seated_seats (set_current_player first g)); [done| |apply Hframe].
    by apply (keeps_total_run_turns (total_player_num g) n (set_current_player first g) w).
Qed.

Lemma seated_run_turns_witness :
  seated (state_of (run_turns 3 (game_fresh 0)
                      (script [AChoice (Some (mkChoice INCOME None));
                               AChoice (Some (mkChoice COUP (Some 0)))])))
  ∧ seated (state_of (run_game 3 (game_fresh 2)
                        (script [AChoice (Some (mkChoice INCOME None));
                                 AChoice (Some (mkChoice COUP (Some 0)))]))).
Proof.
  assert (∀ cur, seated (game_fresh cur)) as Hs.
  { intros cur. split; [reflexivity|].
    intros [|[|[|i]]] p; cbn; intros [= <-]; reflexivity. }
  split.
  - exact (proj1 (proj1 (seated_run_turns (game_fresh 0) _ 3 (Hs 0%nat)))).
  - exact (proj1 (proj2 (seated_run_turns (game_fresh 2) _ 3 (Hs 2%nat)))).
Defined.

(** *** Nobody runs into debt *)

Section NoDebt.
Context {W : Type} `{!DecisionMaker W}.

Lemma coins_nonneg_seats g g' :
  seats same_coins g g' → coins_nonneg g → coins_nonneg g'.
Proof.
  unfold seats, coins_nonneg, same_coins. intros Hs Hg.
  induction Hs as [|p p' ps ps' Hp _ IH]; [done|].
  inversion Hg; subst. constructor; [lia|auto].
Qed.

Lemma keeps_coins_frames {A} (m : M W A) : frames same_coins m → keeps coins_nonneg m.
Proof. intros Hm g w Hg. eapply coins_nonneg_seats; [apply Hm|done]. Qed.

Lemma coins_nonneg_insert g i p' :
  coins_nonneg g → 0 ≤ coins p' →
  coins_nonneg (set_players (<[i:=p']> (players g)) g).
Proof. intros Hg Hp'. unfold coins_nonneg in *. cbn. by apply Forall_insert. Qed.

Lemma keeps_coins_gain i n : 0 ≤ n → keeps coins_nonneg (@modify_player W i (get_coin n)).
Proof.
  intros Hn g w Hg. unfold coins_nonneg in *. cbn.
  apply Forall_alter; [done|]. intros p _ Hp. cbn. lia.
Qed.

Lemma keeps_coins_process_action_cost i a :
  keeps coins_nonneg (@process_action_cost W i a).
Proof.
  intros g w Hg.
  destruct (decide (coins_cost (ACTION_CONFIG a) = 0)) as [Hz|Hnz].
  { by rewrite (process_action_cost_free _ _ _ _ Hz). }
  destruct (players g !! i) as [p|] eqn:E; cycle 1.
  { unfold process_action_cost. rewrite (proj2 (Z.eqb_neq _ _) Hnz).
    by rewrite (bind_raise _ _ _ _ _ _ _ (read_player_stale _ _ _ E)). }
  destruct (Z.lt_ge_cases (coins p) (coins_cost (ACTION_CONFIG a))) as [Hlt|Hge].
  - by rewrite (process_action_cost_short _ _ _ _ _ E Hnz Hlt).
  - rewrite (process_action_cost_paid _ _ _ _ _ E Hnz Hge). cbn.
    apply coins_nonneg_insert; [done|]. cbn. lia.
Qed.

Lemma keeps_coins_StealHandler actor c :
  keeps coins_nonneg (@StealHandler W actor c).
Proof.
  intros g w Hg. unfold StealHandler.
  pose proof (reads_get_player_by_id (W:=W) (target_id c) g w) as Hrd.
  unfold bind at 1.
  destruct (get_player_by_id (target_id c) g w) as [[[[t|]|e|] g1] w1];
    cbn in Hrd; subst g1; try done.
  destruct (players g !! t) as [tp|] eqn:Et; cycle 1.
  { by rewrite (bind_raise _ _ _ _ _ _ _ (read_player_stale _ _ _ Et)). }
  rewrite (bind_ok _ _ _ _ _ _ _ (read_player_run _ _ _ _ Et)). cbv zeta.
  assert (0 ≤ coins tp) as Htp.
  { by apply (proj1 (Forall_forall _ _) Hg), (list_elem_of_lookup_2 _ t). }
  set (stolen := Z.min 2 (coins tp)).
  assert (0 ≤ stolen ≤ coins tp) as Hst by (unfold stolen; lia).
  rewrite (bind_ok _ _ _ _ _ _ _ (modify_player_run _ _ _ _)).
  rewrite (bind_ok _ _ _ _ _ _ _ (modify_player_run _ _ _ _)).
  cbn. unfold coins_nonneg in *. cbn.
  apply Forall_alter.
  - apply Forall_alter; [done|]. intros p Ep _. cbn. simplify_eq. lia.
  - intros p _ Hp. cbn. lia.
Qed.

Lemma keeps_coins_execute_action actor c : keeps coins_nonneg (execute_action actor c).
Proof.
  assert (∀ n, 0 ≤ n →
            keeps coins_nonneg (@modify_player W actor (get_coin n);; @ret W bool true))
    as Hgain.
  { intros n Hn. apply keeps_bind; [by apply keeps_coins_gain|].
    intros; apply keeps_reads, reads_ret. }
  destruct (action c) eqn:Ea;
    try (unfold execute_action; rewrite Ea;
         first [by apply Hgain | apply keeps_coins_StealHandler]);
    apply keeps_coins_frames, frames_execute_action_no_coin;
    first [exact same_coins_refl | exact same_coins_trans
          | exact same_coins_reveal | exact same_coins_hand
          | rewrite Ea; intuition congruence].
Qed.
End NoDebt.

Lemma coins_nonneg_turns {W} `{!DecisionMaker W} (g : GameManager) (w : W) (n : nat) :
  coins_nonneg g → coins_nonneg (state_of (run_turns n g w)).
Proof.
  apply (keeps_run_turns coins_nonneg (fun _ => True)).
  - intros i. apply keeps_coins_frames, frames_lose_influence;
      first [exact same_coins_refl | exact same_coins_trans
            | exact same_coins_reveal | exact same_coins_hand].
  - intros i r. apply keeps_coins_frames, frames_exchange_single_card;
      first [exact same_coins_refl | exact same_coins_trans
            | exact same_coins_reveal | exact same_coins_hand].
  - apply keeps_coins_frames, frames_advance;
      first [exact same_coins_refl | exact same_coins_trans
            | exact same_coins_reveal | exact same_coins_hand].
  - apply keeps_coins_process_action_cost.
  - intros actor c _. apply keeps_coins_execute_action.
  - done.
Qed.

(** X15. No turn brings a player into debt: if every balance is at least 0,
    every balance is at least 0 after any number of turns, with any answers
    of the players and however the loop ends; and so it is after
    [run_game]. *)
Theorem coins_nonneg_run_turns {W} `{!DecisionMaker W}
    (g : GameManager) (w : W) (n : nat) :
  coins_nonneg g →
  coins_nonneg (state_of (run_turns n g w))
  ∧ coins_nonneg (state_of (run_game n g w)).
Proof.
  intros Hg. split; [by apply coins_nonneg_turns|].
  rewrite run_game_run.
  destruct (py_index (length (players g)) 0) as [first|]; [|done].
  by apply coins_nonneg_turns.
Qed.

Lemma coins_nonneg_run_turns_witness :
  coins_nonneg (state_of (run_turns 2 (game_fresh 1)
                            (script [AChoice (Some (mkChoice STEAL (Some 0)));
                                     ABool false; ABool false;
                                     AChoice (Some (mkChoice STEAL (Some 0)))])))
  ∧ coins_nonneg (state_of (run_game 2 (game_fresh 1)
                              (script [AChoice (Some (mkChoice STEAL (Some 1)));
                                       ABool false; ABool false;
                                       AChoice (Some (mkChoice STEAL (Some 0)))]))).
Proof.
  assert (∀ cur, coins_nonneg (game_fresh cur)) as Hg
    by (intros cur; repeat constructor; cbn; lia).
  split.
  - exact (proj1 (coins_nonneg_run_turns (game_fresh 1) _ 2 (Hg 1%nat))).
  - exact (proj2 (coins_nonneg_run_turns (game_fresh 1) _ 2 (Hg 1%nat))).
Defined.

(** *** The cards *)

Lemma hands_alter ps i f :
  (∀ p, role <$> influence (f p) = role <$> influence p) →
  hands (alter f i ps) = hands ps.
Proof.
  intros Hf. unfold hands. revert i.
  induction ps as [|p ps IH]; intros [|i]; cbn; [done..| |].
  - by rewrite Hf.
  - f_equal. apply IH.
Qed.

Lemma hands_insert ps i p :
  ps !! i = Some p →
  ∃ pre post,
    hands ps = pre ++ (role <$> influence p) ++ post
    ∧ ∀ p', hands (<[i:=p']> ps) = pre ++ (role <$> influence p') ++ post.
Proof.
  unfold hands. revert i. induction ps as [|q ps IH]; intros [|i] E; simplify_eq/=.
  - by exists [], (q ← ps; role <$> influence q).
  - destruct (IH i E) as (pre & post & E1 & E2).
    exists ((role <$> influence q) ++ pre), post. split.
    + by rewrite E1, <- app_assoc.
    + intros p'. by rewrite E2, <- app_assoc.
Qed.

Section Cards.
Context {W : Type} `{!DecisionMaker W}.
Variable L : list Role.
Let I := cards_are L.

Lemma keeps_cards_modify_gm f :
  (∀ g, deck (f g) = deck g ∧ players (f g) = players g) → keeps I (@modify_gm W f).
Proof.
  intros Hf. apply keeps_modify_gm. unfold I, cards_are. intros g HI.
  destruct (Hf g) as [-> ->]. done.
Qed.

Lemma keeps_cards_modify_player i f :
  (∀ p, role <$> influence (f p) = role <$> influence p) →
  keeps I (@modify_player W i f).
Proof.
  intros Hf. apply keeps_modify_gm. unfold I, cards_are. intros g HI. cbn.
  by rewrite hands_alter.
Qed.

Lemma keeps_cards_reveal i k : keeps I (@modify_player W i (reveal_card k)).
Proof. apply keeps_cards_modify_player. intros p. cbn. apply reveal_hidden_roles. Qed.

#[local] Hint Resolve keeps_cards_reveal : core.

Lemma keeps_cards_lose_influence i : keeps I (lose_influence i).
Proof. unfold lose_influence. keeps_auto. Qed.

Lemma keeps_cards_exchange_single_card i r : keeps I (exchange_single_card i r).
Proof.
  intros g w HI.
  destruct (players g !! i) as [p|] eqn:E; cycle 1.
  { unfold exchange_single_card.
    by rewrite (bind_raise _ _ _ _ _ _ _ (read_player_stale _ _ _ E)). }
  destruct (has_hidden_role p r) eqn:Hr; cycle 1.
  { by rewrite (exchange_single_card_absent _ _ _ _ _ E Hr). }
  destruct (exchange_single_card_run g w i p r E Hr) as (l & c & d & w' & El & Hd & ->).
  destruct (list_remove_hidden p r Hr) as (l' & El' & _ & _ & Hp). simplify_eq.
  destruct (hands_insert _ _ _ E) as (pre & post & E1 & E2).
  unfold I, cards_are in *. cbn. rewrite E2. cbn. rewrite fmap_app. cbn.
  rewrite <- HI, E1, <- Hp. cbn.
  transitivity ((d ++ [c]) ++ pre ++ (role <$> l) ++ post).
  - rewrite <- !app_assoc. apply Permutation_app_head. cbn.
    rewrite !(app_assoc pre). symmetry. apply Permutation_middle.
  - rewrite Hd, <- !app_assoc. apply Permutation_app_head. cbn.
    apply Permutation_middle.
Qed.

Lemma keeps_cards_advance : keeps I (@advance W).
Proof.
  unfold advance, get_current_player. keeps_auto; by apply keeps_cards_modify_gm.
Qed.

Lemma keeps_cards_process_action_cost i a : keeps I (@process_action_cost W i a).
Proof.
  unfold process_action_cost. keeps_auto. by apply keeps_cards_modify_player.
Qed.

#[local] Hint Resolve keeps_cards_lose_influence : core.

Lemma keeps_cards_execute_action actor c :
  action c ≠ EXCHANGE → keeps I (execute_action actor c).
Proof.
  intros Hc. unfold execute_action.
  destruct (action c); [..|done];
    unfold IncomeHandler, ForeignAidHandler, TaxHandler, StealHandler,
      AssassinateHandler, CoupHandler;
    keeps_auto; by apply keeps_cards_modify_player.
Qed.
End Cards.

(** X16. Only the exchange can lose or make a card: in a turn whose action is
    not EXCHANGE the cards of the deck and of the hands are, role by role,
    the cards there were before, whoever challenges or counters and however
    the turn ends. *)
Theorem cards_conserved_run_turn {W} `{!DecisionMaker W}
    (g : GameManager) (w : W) :
  (∀ actor c,
      players g !! current_player g = Some actor →
      (get_player_choice actor (get_target_list g) w).1 = Some c →
      action c ≠ EXCHANGE) →
  let g' := state_of (run_turn g w) in
  deck g' ++ hands (players g') ≡ₚ deck g ++ hands (players g)
  ∧ card_total g' = card_total g.
Proof.
  intros Hc g'.
  assert (cards_are (deck g ++ hands (players g)) g') as HP.
  { apply (keeps_run_turn _ (fun c => action c ≠ EXCHANGE)).
    - apply keeps_cards_lose_influence.
    - apply keeps_cards_exchange_single_card.
    - apply keeps_cards_advance.
    - apply keeps_cards_process_action_cost.
    - intros actor c. apply keeps_cards_execute_action.
    - unfold cards_are. reflexivity.
    - exact Hc. }
  split; [exact HP|]. rewrite !card_total_hands. by rewrite HP.
Qed.

Lemma cards_conserved_run_turn_witness :
  let w := script [AChoice (Some (mkChoice STEAL (Some 1))); ABool false; ABool false;
                   ARole (Some AMBASSADOR); ABool true; AIndex 0] in
  let g' := state_of (run_turn (game_fresh 0) w) in
  deck g' ++ hands (players g') ≡ₚ deck (game_fresh 0) ++ hands (players (game_fresh 0))
  ∧ card_total g' = card_total (game_fresh 0).
Proof.
  apply cards_conserved_run_turn. intros actor c Ea Ec.
  vm_compute in Ea. vm_compute in Ec. by simplify_eq.
Defined.

(** *** The coins of a theft *)

Lemma coin_total_insert g i p p' :
  players g !! i = Some p →
  coin_total (set_players (<[i:=p']> (players g)) g) = coin_total g - coins p + coins p'.
Proof.
  unfold coin_total. cbn. generalize (players g). intros l. revert i.
  induction l as [|q l IH]; intros [|i] E; simplify_eq/=; [lia|].
  rewrite (IH i E). lia.
Qed.

(** X17. STEAL in a seated game, with a target id in range: the handler returns
    [True]; the target loses [min(2, coins)] and the thief gets as much, so
    the coins on the table are as many as before; a thief who names
    themself ends with the coins they had; deck and hands are not
    touched. *)
Theorem StealHandler_spec {W} `{!DecisionMaker W}
    (g : GameManager) (w : W) (actor : nat) (choice : Choice)
    (t : Z) (thief victim : Player) :
  seated g →
  target_id choice = Some t →
  0 ≤ t < total_player_num g →
  players g !! actor = Some thief →
  players g !! Z.to_nat t = Some victim →
  let stolen := Z.min 2 (coins victim) in
  let r := StealHandler actor choice g w in
  outcome_of r = Ok true
  ∧ world_of r = w
  ∧ coin_total (state_of r) = coin_total g
  ∧ deck (state_of r) = deck g
  ∧ hands (players (state_of r)) = hands (players g)
  ∧ (actor ≠ Z.to_nat t →
     players (state_of r)
     = <[actor:=get_coin stolen thief]>
         (<[Z.to_nat t:=lose_coin stolen victim]> (players g)))
  ∧ (actor = Z.to_nat t → players (state_of r) = players g).
Proof.
  intros Hs Ht Hr Ea Ev stolen r. subst r. unfold StealHandler.
  destruct (get_player_by_id_seated g w t Hs Hr) as (p & Ep & _ & Eg).
  rewrite Ht, (bind_ok _ _ _ _ _ _ _ Eg).
  rewrite (bind_ok _ _ _ _ _ _ _ (read_player_run _ _ _ _ Ev)). cbv zeta.
  fold stolen.
  rewrite (bind_ok _ _ _ _ _ _ _ (modify_player_run _ _ _ _)).
  rewrite (bind_ok _ _ _ _ _ _ _ (modify_player_run _ _ _ _)).
  cbn [ret outcome_of world_of state_of fst snd set_players players deck].
  assert (hands (alter (get_coin stolen) actor
                   (alter (lose_coin stolen) (Z.to_nat t) (players g)))
          = hands (players g)) as Hh by (by rewrite !hands_alter).
  rewrite (alter_lookup _ _ _ _ Ev) in Hh |- *.
  split; [done|]. split; [done|].
  destruct (decide (actor = Z.to_nat t)) as [->|Hne].
  - assert (<[Z.to_nat t:=lose_coin stolen victim]> (players g) !! Z.to_nat t
            = Some (lose_coin stolen victim)) as E1.
    { apply list_lookup_insert_eq. by eapply lookup_lt_Some. }
    rewrite (alter_lookup _ _ _ _ E1), list_insert_insert_eq.
    assert (get_coin stolen (lose_coin stolen victim) = victim) as ->.
    { destruct victim as [vid vc vi]. unfold get_coin, lose_coin. cbn. f_equal. lia. }
    rewrite (list_insert_id _ _ _ Ev).
    repeat split; try done.
  - assert (<[Z.to_nat t:=lose_coin stolen victim]> (players g) !! actor
            = Some thief) as E1.
    { by rewrite list_lookup_insert_ne. }
    rewrite (alter_lookup _ _ _ _ E1) in Hh |- *.
    split; [|split; [done|split; [exact Hh|done]]].
    pose proof (coin_total_insert
                    (set_players (<[Z.to_nat t:=lose_coin stolen victim]> (players g)) g)
                    actor thief (get_coin stolen thief) E1) as H1.
    pose proof (coin_total_insert g (Z.to_nat t) victim (lose_coin stolen victim) Ev)
      as H2.
    unfold coin_total in *. cbn in *. lia.
Qed.

Lemma StealHandler_spec_witness :
  let r := StealHandler 0 (mkChoice STEAL (Some 1)) (game_fresh 0) (script []) in
  outcome_of r = Ok true
  ∧ coin_total (state_of r) = coin_total (game_fresh 0)
  ∧ coins <$> players (state_of r) = [4; 0; 2].
Proof.
  assert (seated (game_fresh 0)) as Hs.
  { split; [reflexivity|]. intros [|[|[|i]]] p; cbn; intros [= <-]; reflexivity. }
  destruct (StealHandler_spec (game_fresh 0) (script []) 0 (mkChoice STEAL (Some 1)) 1
              (mkPlayer 0 2 [face_down CAPTAIN; face_down DUKE])
              (mkPlayer 1 2 [face_down ASSASSIN; face_down CONTESSA]) Hs)
    as (H1 & _ & H3 & _ & _ & H6 & _); [reflexivity|simpl; lia|reflexivity..|].
  split; [exact H1|]. split; [exact H3|].
  rewrite H6; [reflexivity|]. simpl. lia.
Defined.

(** ** The exchange of the ambassador *)

Lemma filter_split {A} (P : A → bool) (l : list A) :
  List.filter P l ++ List.filter (fun x => negb (P x)) l ≡ₚ l.
Proof.
  induction l as [|x l IH]; cbn; [done|]. destruct (P x); cbn.
  - by rewrite IH.
  - by rewrite <- Permutation_middle, IH.
Qed.

Lemma filter_chosen (sel all : list Role) :
  NoDup all → NoDup sel → sel ⊆ all →
  List.filter (fun c => bool_decide (c ∈ sel)) all ≡ₚ sel.
Proof.
  intros Hall Hsel Hsub. apply NoDup_Permutation; [|done|].
  - clear Hsub. induction Hall as [|x l Hx _ IH]; cbn; [constructor|].
    destruct (bool_decide (x ∈ sel)); [|done].
    constructor; [|done]. rewrite list_elem_of_In, List.filter_In, <- list_elem_of_In.
    tauto.
  - intros x. rewrite list_elem_of_In, List.filter_In, <- list_elem_of_In,
      bool_decide_eq_true.
    split; [tauto|]. intros Hx. split; [by apply Hsub|done].
Qed.

Lemma kept_and_returned (sel all : list Role) :
  NoDup all → NoDup sel → sel ⊆ all →
  sel ++ List.filter (fun c => negb (bool_decide (c ∈ sel))) all ≡ₚ all.
Proof.
  intros Hall Hsel Hsub.
  rewrite <- (filter_chosen sel all Hall Hsel Hsub) at 1.
  apply filter_split.
Qed.

Lemma filter_revealed_new (cards : list Role) :
  List.filter is_revealed (new_influence <$> cards) = [].
Proof. induction cards; cbn; done. Qed.

Lemma filter_revealed_idemp (l : list Influence) :
  List.filter is_revealed (List.filter is_revealed l) = List.filter is_revealed l.
Proof.
  induction l as [|[r b] l IH]; cbn; [done|].
  destruct b; cbn; [by rewrite IH|done].
Qed.

Lemma draw_cat num cards drawn rest :
  draw num cards = Some (drawn, rest) → cards = rest ++ reverse drawn.
Proof.
  unfold draw. case_decide; [done|]. intros [= <- <-].
  by rewrite reverse_involutive, take_drop.
Qed.

(** X18. An exchange whose selection has the right length returns [True] and
    changes the hand of the player alone: the revealed cards, the coins and
    the id stay, the hidden cards are the selection. If the cards on offer
    (the two drawn and the hidden ones) are pairwise different and the
    selection is made of different cards among them, no card is lost: deck
    and hands hold the same cards as before. *)
Theorem exchange_two_cards_spec {W} `{!DecisionMaker W}
    (g : GameManager) (w : W) (i : nat) (p : Player) (new_cards rest : list Role) :
  players g !! i = Some p →
  get_hidden_cards p ≠ [] →
  draw 2 (deck g) = Some (new_cards, rest) →
  let offered := new_cards ++ hidden_cards p in
  let kept := (select_cards_to_keep p new_cards (hidden_cards p) (hidden_count p) w).1 in
  length kept = hidden_count p →
  let r := exchange_two_cards i g w in
  ∃ p',
    outcome_of r = Ok true
    ∧ players (state_of r) = <[i:=p']> (players g)
    ∧ player_id p' = player_id p
    ∧ coins p' = coins p
    ∧ revealed_cards p' = revealed_cards p
    ∧ hidden_cards p' = kept
    ∧ (NoDup offered → NoDup kept → kept ⊆ offered →
       deck (state_of r) ++ hands (players (state_of r))
       ≡ₚ deck g ++ hands (players g)).
Proof.
  intros E Hh Hd offered kept Hlen r. subst r.
  destruct (exchange_two_cards_run g w i p new_cards rest E Hh Hd Hlen)
    as (d & w' & Hperm & ->).
  fold (hidden_count p) in Hperm. fold kept in Hperm. fold offered in Hperm.
  fold (hidden_count p). fold kept.
  eexists. split; [done|]. split; [reflexivity|].
  split; [done|]. split; [done|].
  split; [|split].
  - unfold revealed_cards. cbn.
    by rewrite List.filter_app, filter_revealed_idemp, filter_revealed_new, app_nil_r.
  - unfold hidden_cards, get_hidden_cards. cbn.
    rewrite hidden_of_app, hidden_of_revealed, hidden_of_new. cbn.
    rewrite <- list_fmap_compose. apply list_fmap_id.
  - intros Hoff Hkept Hsub. cbn.
    destruct (hands_insert _ _ _ E) as (pre & post & E1 & E2).
    rewrite E2, E1, Hperm, (draw_cat _ _ _ _ Hd). cbn.
    rewrite fmap_app, <- list_fmap_compose.
    assert (role ∘ new_influence <$> kept = kept) as -> by apply list_fmap_id.
    fold (revealed_cards p).
    assert (role <$> influence p ≡ₚ hidden_cards p ++ revealed_cards p) as ->.
    { unfold hidden_cards, revealed_cards, get_hidden_cards, hidden_of.
      rewrite <- fmap_app. apply fmap_Permutation.
      rewrite (Permutation_app_comm (List.filter _ _)).
      symmetry. apply filter_split. }
    pose proof (kept_and_returned kept offered Hoff Hkept Hsub) as HK.
    rewrite reverse_Permutation.
    set (returned := List.filter _ offered) in *.
    transitivity ((kept ++ returned) ++ rest ++ pre ++ revealed_cards p ++ post);
      [solve_Permutation|].
    rewrite HK. unfold offered. solve_Permutation.
Qed.

Lemma exchange_two_cards_spec_witness :
  let g := game3 0
             (mkPlayer 0 2 [face_down CAPTAIN; face_down DUKE])
             (mkPlayer 1 2 [face_down ASSASSIN; face_down CONTESSA])
             (mkPlayer 2 2 [face_down AMBASSADOR; face_up DUKE])
             [DUKE; ASSASSIN; ASSASSIN; AMBASSADOR; CONTESSA; CAPTAIN] in
  let r := exchange_two_cards 2 g (script [ACards [CONTESSA]]) in
  outcome_of r = Ok true
  ∧ players (state_of r) !! 2%nat = Some (mkPlayer 2 2 [face_up DUKE; face_down CONTESSA])
  ∧ deck (state_of r) ++ hands (players (state_of r)) ≡ₚ deck g ++ hands (players g).
Proof.
  intros g.
  destruct (exchange_two_cards_spec g (script [ACards [CONTESSA]]) 2
              (mkPlayer 2 2 [face_down AMBASSADOR; face_up DUKE])
              [CAPTAIN; CONTESSA] [DUKE; ASSASSIN; ASSASSIN; AMBASSADOR])
    as (p' & H1 & _ & _ & _ & _ & _ & H7);
    [reflexivity|discriminate|reflexivity|reflexivity|].
  split; [exact H1|]. split; [vm_compute; reflexivity|].
  apply H7.
  - apply (bool_decide_unpack _). vm_compute. exact I.
  - apply (bool_decide_unpack _). vm_compute. exact I.
  - apply (bool_decide_unpack _). vm_compute. exact I.
Defined.

(** ** Who is still in the game *)

Lemma alive_players_seats g g' :
  seats stays_out g g' →
  (length (alive_players g') ≤ length (alive_players g))%nat.
Proof.
  unfold seats, alive_players. generalize (players g) (players g').
  induction 1 as [|p p' l l' Hp _ IH]; cbn; [done|].
  unfold stays_out in Hp.
  destruct (is_alive p') eqn:E'; [rewrite Hp by done|destruct (is_alive p)]; cbn; lia.
Qed.

(** X19. No turn brings a player back: after any number of turns there are at
    most as many living players as before, so a game that is over stays
    over; and so it is after [run_game]. *)
Theorem alive_players_never_grow {W} `{!DecisionMaker W}
    (g : GameManager) (w : W) (n : nat) :
  (let g' := state_of (run_turns n g w) in
   (length (alive_players g') ≤ length (alive_players g))%nat
   ∧ (is_game_over g = true → is_game_over g' = true))
  ∧ (let g' := state_of (run_game n g w) in
     (length (alive_players g') ≤ length (alive_players g))%nat
     ∧ (is_game_over g = true → is_game_over g' = true)).
Proof.
  assert (∀ g' : GameManager,
            (length (alive_players g') ≤ length (alive_players g))%nat →
            (length (alive_players g') ≤ length (alive_players g))%nat
            ∧ (is_game_over g = true → is_game_over g' = true)) as Hover.
  { intros g' Hle. split; [exact Hle|]. unfold is_game_over. rewrite !Nat.leb_le. lia. }
  split; cbv zeta; apply Hover, alive_players_seats;
    [apply frames_run_turns|apply frames_run_game];
    first [ exact stays_out_refl | exact stays_out_trans | exact stays_out_reveal
          | exact stays_out_hand | exact stays_out_get_coin
          | exact stays_out_lose_coin ].
Qed.

Lemma alive_players_never_grow_witness :
  let w := script [AChoice (Some (mkChoice COUP (Some 1))); AIndex 0] in
  is_game_over (state_of (run_turns 3 game_late w)) = false
  ∧ (length (alive_players (state_of (run_turns 3 game_late w))) ≤ 2)%nat
  ∧ (length (alive_players (state_of (run_game 3 game_late w))) ≤ 2)%nat.
Proof.
  split; [vm_compute; reflexivity|]. split.
  - apply (proj1 (proj1 (alive_players_never_grow game_late
                           (script [AChoice (Some (mkChoice COUP (Some 1))); AIndex 0]) 3))).
  - apply (proj1 (proj2 (alive_players_never_grow game_late
                           (script [AChoice (Some (mkChoice COUP (Some 1))); AIndex 0]) 3))).
Defined.

(** ** Whose turn it is *)

Section OnTurn.
Context {W : Type} `{!DecisionMaker W}.
Variable N : Z.
Let I := fun g =>
  total_player_num g = N ∧ on_turn g ∧ current_player_index g < N.

Lemma keeps_turn_modify_gm f :
  (∀ g, total_player_num (f g) = total_player_num g
        ∧ current_player_index (f g) = current_player_index g
        ∧ current_player (f g) = current_player g) →
  keeps I (@modify_gm W f).
Proof.
  intros Hf. apply keeps_modify_gm. unfold I, on_turn. intros g HI.
  destruct (Hf g) as (-> & -> & ->). done.
Qed.

Lemma keeps_turn_modify_player i f : keeps I (@modify_player W i f).
Proof. by apply keeps_turn_modify_gm. Qed.

#[local] Hint Resolve keeps_turn_modify_player : core.

Lemma keeps_turn_Deck_draw num : keeps I (@Deck_draw W num).
Proof. unfold Deck_draw. keeps_auto. by apply keeps_turn_modify_gm. Qed.

Lemma keeps_turn_return_cards cards : keeps I (return_cards cards).
Proof. unfold return_cards. keeps_auto. by apply keeps_turn_modify_gm. Qed.

#[local] Hint Resolve keeps_turn_Deck_draw keeps_turn_return_cards : core.

Lemma keeps_turn_lose_influence i : keeps I (lose_influence i).
Proof. unfold lose_influence. keeps_auto. Qed.

Lemma keeps_turn_exchange_single_card i r : keeps I (exchange_single_card i r).
Proof. unfold exchange_single_card. keeps_auto. Qed.

Lemma keeps_turn_exchange_two_cards i : keeps I (exchange_two_cards i).
Proof. unfold exchange_two_cards. keeps_auto. Qed.

Lemma keeps_turn_process_action_cost i a : keeps I (@process_action_cost W i a).
Proof. unfold process_action_cost. keeps_auto. Qed.

#[local] Hint Resolve keeps_turn_lose_influence keeps_turn_exchange_two_cards : core.

Lemma keeps_turn_execute_action actor c : keeps I (execute_action actor c).
Proof.
  unfold execute_action.
  destruct (action c);
    unfold IncomeHandler, ForeignAidHandler, TaxHandler, StealHandler,
      AssassinateHandler, CoupHandler, ExchangeHandler;
    keeps_auto.
Qed.

(** The seat that [next_alive] returns is a seat of the list. *)
Lemma next_alive_seat fuel t g (w : W) t' g' (w' : W) :
  0 ≤ t < total_player_num g →
  next_alive fuel t g w = (Ok t', g', w') →
  g' = g ∧ 0 ≤ t' < total_player_num g
  ∧ player_at t' g w = (Ok (Z.to_nat t'), g, w).
Proof.
  revert t; induction fuel as [|fuel IH]; intros t Ht E; cbn [next_alive] in E.
  { discriminate E. }
  assert (player_at t g w = (Ok (Z.to_nat t), g, w)
          ∨ player_at t g w = (Raise IndexError, g, w)) as [Hp|Hp].
  { rewrite player_at_run. unfold py_index.
    destruct ((0 <=? t) && (t <? Z.of_nat (length (players g)))); [by left|].
    destruct ((- Z.of_nat (length (players g)) <=? t) && (t <? 0)) eqn:Hneg;
      [|by right]. apply andb_true_iff in Hneg as [_ Hneg]. apply Z.ltb_lt in Hneg. lia. }
  2:{ rewrite (bind_raise _ _ _ _ _ _ _ Hp) in E. discriminate E. }
  rewrite (bind_ok _ _ _ _ _ _ _ Hp) in E.
  destruct (players g !! Z.to_nat t) as [q|] eqn:Eq; cycle 1.
  { rewrite (bind_raise _ _ _ _ _ _ _ (read_player_stale _ _ _ Eq)) in E.
    discriminate E. }
  rewrite (bind_ok _ _ _ _ _ _ _ (read_player_run _ _ _ _ Eq)) in E.
  destruct (is_alive q).
  - unfold ret in E. simplify_eq. done.
  - rewrite bind_get in E.
    assert (total_player_num g ≠ 0) as Hn by lia.
    rewrite (bind_ok _ _ _ _ _ _ _ (py_mod_run _ _ _ _ Hn)) in E.
    apply (IH ((t + 1) mod total_player_num g)); [|done].
    apply Z.mod_pos_bound. lia.
Qed.

Lemma keeps_turn_advance : keeps I (@advance W).
Proof.
  intros g w (Ht & [Hi0 Hcur] & HiN).
  assert (total_player_num g ≠ 0) as Hn by lia.
  set (t0 := (current_player_index g + 1) mod total_player_num g).
  assert (0 ≤ t0 < total_player_num g) as Ht0 by (apply Z.mod_pos_bound; lia).
  pose proof (reads_next_alive (W:=W) (Z.abs_nat (total_player_num g)) t0 g w) as Hrd.
  destruct (next_alive (Z.abs_nat (total_player_num g)) t0 g w) as [[[t|e|] g1] w1] eqn:En;
    cbn in Hrd; subst g1.
  - destruct (next_alive_seat _ _ _ _ _ _ _ Ht0 En) as (_ & Ht' & Hp).
    assert (get_current_player g w
            = (Ok (Z.to_nat t), set_current_player_index t g, w1)) as Hgcp.
    { unfold get_current_player.
      rewrite bind_get, (bind_ok _ _ _ _ _ _ _ (py_mod_run _ _ _ _ Hn)).
      fold t0. rewrite (bind_ok _ _ _ _ _ _ _ En).
      unfold bind at 1. unfold modify_gm at 1. cbv iota beta.
      rewrite player_at_run in Hp |- *. cbn [players set_current_player_index].
      destruct (py_index (length (players g)) t); by simplify_eq. }
    unfold advance. rewrite (bind_ok _ _ _ _ _ _ _ Hgcp). cbn.
    unfold I, on_turn. cbn. lia.
  - assert (get_current_player g w = (Raise e, g, w1)) as Hgcp.
    { unfold get_current_player.
      rewrite bind_get, (bind_ok _ _ _ _ _ _ _ (py_mod_run _ _ _ _ Hn)).
      fold t0. by rewrite (bind_raise _ _ _ _ _ _ _ En). }
    unfold advance. by rewrite (bind_raise _ _ _ _ _ _ _ Hgcp).
  - assert (get_current_player g w = (Diverge, g, w1)) as Hgcp.
    { unfold get_current_player.
      rewrite bind_get, (bind_ok _ _ _ _ _ _ _ (py_mod_run _ _ _ _ Hn)).
      fold t0. by rewrite (bind_diverge _ _ _ _ _ _ En). }
    unfold advance. by rewrite (bind_diverge _ _ _ _ _ _ Hgcp).
Qed.

Lemma keeps_turn_run_turns n : keeps I (run_turns n).
Proof.
  apply (keeps_run_turns I (fun _ => True));
    auto using keeps_turn_lose_influence, keeps_turn_exchange_single_card,
      keeps_turn_advance, keeps_turn_process_action_cost,
      keeps_turn_execute_action.
Qed.
End OnTurn.

(** X20. The two fields that say whose turn it is are in step after
    [run_game]: called on a game with players whose
    [current_player_index] is 0, as the constructor leaves it, it puts
    seat 0 on turn, and from then on [current_player] is the player at
    [current_player_index] and the index is a seat, after any number of
    turns, with any answers of the players and however the loop ends. *)
Theorem on_turn_run_game {W} `{!DecisionMaker W} (g : GameManager) (w : W) (n : nat) :
  current_player_index g = 0 →
  0 < total_player_num g →
  players g ≠ [] →
  let g' := state_of (run_game n g w) in
  on_turn g' ∧ current_player_index g' < total_player_num g'.
Proof.
  intros Hi Ht Hp g'. subst g'. rewrite run_game_run.
  assert (py_index (length (players g)) 0 = Some 0%nat) as ->.
  { unfold py_index. destruct (players g); [done|]. reflexivity. }
  destruct (keeps_turn_run_turns (total_player_num g) n (set_current_player 0 g) w)
    as (Ht' & Ho' & Hi').
  { split; [done|]. split; [|by rewrite <- Hi in Ht].
    split; cbn; [lia|by rewrite Hi]. }
  split; [done|]. by rewrite Ht'.
Qed.

Lemma on_turn_run_game_witness :
  on_turn (state_of (run_game 2 (set_current_player 2 (game_fresh 0))
                       (script [AChoice (Some (mkChoice INCOME None));
                                AChoice (Some (mkChoice COUP (Some 0)))]))).
Proof.
  apply (on_turn_run_game (set_current_player 2 (game_fresh 0))
           (script [AChoice (Some (mkChoice INCOME None));
                    AChoice (Some (mkChoice COUP (Some 0)))]) 2).
  - reflexivity.
  - simpl. lia.
  - discriminate.
Defined.

(** ** The cost of an action *)

(** Steps that touch only the players and the deck leave the other fields
    of the manager as they are. *)
Section Rest.
Context {W : Type} `{!DecisionMaker W}.
Variable P : Z → Z → nat → Z → Prop.
Let I := fun g =>
  P (total_player_num g) (current_player_index g) (current_player g) (turn_count g).

Lemma keeps_rest_modify_gm f :
  (∀ g, total_player_num (f g) = total_player_num g
        ∧ current_player_index (f g) = current_player_index g
        ∧ current_player (f g) = current_player g
        ∧ turn_count (f g) = turn_count g) →
  keeps I (@modify_gm W f).
Proof.
  intros Hf. apply keeps_modify_gm. unfold I. intros g HI.
  destruct (Hf g) as (-> & -> & -> & ->). done.
Qed.

Lemma keeps_rest_modify_player i f : keeps I (@modify_player W i f).
Proof. by apply keeps_rest_modify_gm. Qed.

#[local] Hint Resolve keeps_rest_modify_player : core.

Lemma keeps_rest_Deck_draw num : keeps I (@Deck_draw W num).
Proof. unfold Deck_draw. keeps_auto. by apply keeps_rest_modify_gm. Qed.

Lemma keeps_rest_return_cards cards : keeps I (return_cards cards).
Proof. unfold return_cards. keeps_auto. by apply keeps_rest_modify_gm. Qed.

#[local] Hint Resolve keeps_rest_Deck_draw keeps_rest_return_cards : core.

Lemma keeps_rest_lose_influence i : keeps I (lose_influence i).
Proof. unfold lose_influence. keeps_auto. Qed.

Lemma keeps_rest_exchange_single_card i r : keeps I (exchange_single_card i r).
Proof. unfold exchange_single_card. keeps_auto. Qed.

Lemma keeps_rest_claim_challenge_phase choice : keeps I (claim_challenge_phase choice).
Proof.
  apply keeps_claim_challenge_phase;
    [apply keeps_rest_lose_influence|apply keeps_rest_exchange_single_card].
Qed.
End Rest.

Lemma claim_challenge_phase_on_turn {W} `{!DecisionMaker W} choice g (w : W) :
  current_player (state_of (claim_challenge_phase choice g w)) = current_player g.
Proof.
  by apply (keeps_rest_claim_challenge_phase
              (fun _ _ cur _ => cur = current_player g) choice g w).
Qed.

(** X21. The cost of an action is taken once, after the challenge of the
    claim and before anybody is asked for a counter, and it is never given
    back. For a turn in which the player on turn chooses an action that
    costs coins (ASSASSINATE, COUP) and can pay: the challenge of the claim
    moves no coin; if it does not end with the claim standing (the claim
    is disproven, or the phase fails), no coin has moved at the end of the
    turn; if the claim stands, the rest of the turn is the counter phase
    run from the state in which the cost is paid, and at the end of the
    turn, however it ends, the actor has exactly the cost less than
    before and every other player the coins they had. *)
Theorem cost_paid_once {W} `{!DecisionMaker W}
    (g : GameManager) (w0 w : W) (choice : Choice) (actor : Player) :
  players g !! current_player g = Some actor →
  get_player_choice actor (get_target_list g) w0 = (Some choice, w) →
  0 < coins_cost (ACTION_CONFIG (action choice)) →
  coins_cost (ACTION_CONFIG (action choice)) ≤ coins actor →
  let cost := coins_cost (ACTION_CONFIG (action choice)) in
  let c := claim_challenge_phase choice g w in
  let r := run_turn g w0 in
  seats same_coins g (state_of c)
  ∧ (outcome_of c ≠ Ok false → seats same_coins g (state_of r))
  ∧ (outcome_of c = Ok false →
     ∃ actor1,
       players (state_of c) !! current_player g = Some actor1
       ∧ coins actor1 = coins actor
       ∧ r = counter_phase choice
               (set_players (<[current_player g:=lose_coin cost actor1]>
                               (players (state_of c))) (state_of c))
               (world_of c)
       ∧ ∀ i p, players g !! i = Some p →
           ∃ p', players (state_of r) !! i = Some p'
                 ∧ coins p' = if decide (i = current_player g)
                              then coins p - cost else coins p).
Proof.
  intros E Hch Hpos Hle cost c r. subst c r.
  assert (action choice = ASSASSINATE ∨ action choice = COUP
          ∨ action choice = EXCHANGE) as Hact.
  { destruct (action choice); cbn in Hpos; auto; lia. }
  assert (run_turn g w0
          = (do disproven <- claim_challenge_phase choice;
             if disproven then advance;; ret ClaimDisproven
             else cost_and_counter choice) g w) as ->.
  { unfold run_turn. rewrite bind_get.
    rewrite (bind_ok _ _ _ _ _ _ _ (read_player_run _ _ _ _ E)).
    rewrite bind_ask, Hch. reflexivity. }
  assert (seats same_coins g (state_of (claim_challenge_phase choice g w))) as Hc1.
  { apply frames_claim_challenge_phase;
      [exact same_coins_refl|exact same_coins_trans
      |exact same_coins_reveal|exact same_coins_hand]. }
  pose proof (claim_challenge_phase_on_turn choice g w) as Hcur.
  split; [exact Hc1|].
  destruct (claim_challenge_phase choice g w) as [[[[|]|e|] g1] w1] eqn:Ec;
    cbn [outcome_of state_of world_of fst snd] in *.
  - rewrite (bind_ok _ _ _ _ _ _ _ Ec).
    split; [intros _|intros [=]].
    eapply seats_trans; [exact same_coins_trans|exact Hc1|].
    apply frames_bind;
      try (first [exact same_coins_refl|exact same_coins_trans]);
      [apply frames_advance|intros; apply frames_ret];
      first [exact same_coins_refl|exact same_coins_trans].
  - rewrite (bind_ok _ _ _ _ _ _ _ Ec).
    split; [done|intros _].
    destruct (Forall2_lookup_l _ _ _ _ _ Hc1 E) as (actor1 & E1 & Hco).
    unfold same_coins in Hco.
    exists actor1. split; [done|]. split; [done|].
    unfold cost_and_counter. rewrite bind_get, Hcur.
    assert (coins_cost (ACTION_CONFIG (action choice)) ≠ 0) as Hne by lia.
    assert (coins_cost (ACTION_CONFIG (action choice)) ≤ coins actor1) as Hle1 by lia.
    rewrite (bind_ok _ _ _ _ _ _ _
               (process_action_cost_paid g1 w1 _ _ actor1 E1 Hne Hle1)).
    fold cost. split; [reflexivity|].
    set (paid := set_players (<[current_player g:=lose_coin cost actor1]> (players g1)) g1).
    assert (seats same_coins paid (state_of (counter_phase choice paid w1))) as Hs.
    { apply frames_counter_phase_no_coin;
        [exact same_coins_refl|exact same_coins_trans
        |exact same_coins_reveal|exact same_coins_hand|exact Hact]. }
    intros i p Ei.
    destruct (Forall2_lookup_l _ _ _ _ _ Hc1 Ei) as (p1 & E1i & Hco1).
    unfold same_coins in Hco1.
    destruct (decide (i = current_player g)) as [->|Hne'].
    + assert (players paid !! current_player g = Some (lose_coin cost actor1)) as Ep.
      { cbn. apply list_lookup_insert_eq. by eapply lookup_lt_Some. }
      destruct (Forall2_lookup_l _ _ _ _ _ Hs Ep) as (p' & E' & Hco').
      exists p'. split; [done|]. unfold same_coins in Hco'. rewrite Hco'. cbn.
      simplify_eq. lia.
    + assert (players paid !! i = Some p1) as Ep.
      { cbn. by rewrite list_lookup_insert_ne. }
      destruct (Forall2_lookup_l _ _ _ _ _ Hs Ep) as (p' & E' & Hco').
      exists p'. split; [done|]. unfold same_coins in Hco'. by rewrite Hco'.
  - rewrite (bind_raise _ _ _ _ _ _ _ Ec).
    split; [intros _; exact Hc1|intros [=]].
  - rewrite (bind_diverge _ _ _ _ _ _ Ec).
    split; [intros _; exact Hc1|intros [=]].
Qed.

Lemma cost_paid_once_witness :
  let choice := mkChoice ASSASSINATE (Some 1) in
  let w0 := script [AChoice (Some choice); ABool false; ABool false;
                    ARole (Some CONTESSA); ABool false; ABool false] in
  ∃ p', players (state_of (run_turn game_three_coins w0)) !! 0%nat = Some p'
        ∧ coins p' = 3 - 3.
Proof.
  intros choice w0.
  destruct (cost_paid_once game_three_coins w0
              (mkScript [ABool false; ABool false; ARole (Some CONTESSA);
                         ABool false; ABool false] [QChoice 0])
              choice (mkPlayer 0 3 [face_down CAPTAIN; face_down DUKE]))
    as (_ & _ & Hpaid); [reflexivity|reflexivity|simpl; lia|simpl; lia|].
  destruct (Hpaid eq_refl) as (actor1 & _ & _ & _ & Hall).
  exact (Hall 0%nat (mkPlayer 0 3 [face_down CAPTAIN; face_down DUKE]) eq_refl).
Defined.

(** ** A counter nobody challenges *)

Lemma advance_deck {W} `{!DecisionMaker W} g (w : W) :
  deck (state_of (advance g w)) = deck g.
Proof.
  assert (keeps (fun g' => deck g' = deck g) (@advance W)) as Hk; [|by apply Hk].
  unfold advance, get_current_player.
  keeps_auto; apply keeps_modify_gm; intros g0 Hg0; exact Hg0.
Qed.

(** X22. When the target of an action that can be countered is asked (its
    id is not 0), declares a counter role and nobody takes up the
    challenge, the action is cancelled: what is left of the turn is the
    rotation to the next player, [execute_action] is not reached, and no
    hand, no coin and no card of the deck has changed since the cost was
    paid. *)
Theorem unchallenged_counter_cancels {W} `{!DecisionMaker W}
    (g : GameManager) (w : W) (choice : Choice) (t : Z) (tp : nat)
    (target : Player) (tc : Role) :
  target_id choice = Some t →
  t ≠ 0 →
  counterable_by (ACTION_CONFIG (action choice)) ≠ [] →
  0 ≤ t < total_player_num g →
  list_find (fun p => player_id p = t) (players g) = Some (tp, target) →
  (target_answer target (action choice) w).1 = Some tc →
  let asked := (target_answer target (action choice) w).2 in
  let poll := poll_challengers (player_id target) tp tc
                               (offsets (total_player_num g)) g asked in
  outcome_of poll = Ok None →
  let r := counter_phase choice g w in
  r = (advance;; ret CounterStood) g (world_of poll)
  ∧ players (state_of r) = players g
  ∧ deck (state_of r) = deck g
  ∧ ∀ ok, outcome_of r ≠ Ok (Executed ok).
Proof.
  intros Ht Hnz Hcb Hr Hf Htc asked poll Hpoll r.
  assert (r = (advance;; ret CounterStood) g (world_of poll)) as Hrun.
  { subst r. unfold counter_phase. cbv zeta. rewrite Ht.
    assert (truthy_int (Some t) = true) as ->.
    { unfold truthy_int. by apply negb_true_iff, Z.eqb_neq. }
    assert (truthy_list (counterable_by (ACTION_CONFIG (action choice))) = true) as ->.
    { by destruct (counterable_by (ACTION_CONFIG (action choice))). }
    cbn [andb].
    rewrite (bind_ok _ _ _ _ _ _ _ (get_player_by_id_run _ _ _ Hr)), Hf.
    cbn [fmap option_fmap option_map fst].
    pose proof Hf as Hf'. apply list_find_Some in Hf' as (Et & _ & _).
    rewrite (bind_ok _ _ _ _ _ _ _ (read_player_run _ _ _ _ Et)).
    rewrite bind_ask, Htc, bind_get. fold asked. fold poll.
    pose proof (reads_poll_challengers (player_id target) tp tc
                  (offsets (total_player_num g)) g asked) as Hrd.
    fold poll in Hrd. unfold bind at 1. fold poll.
    destruct poll as [[[[c|]|e|] g1] w1]; cbn in Hpoll, Hrd; simplify_eq. done. }
  split; [exact Hrun|]. rewrite Hrun. unfold bind.
  pose proof (advance_players g (world_of poll)) as Hp.
  pose proof (advance_deck g (world_of poll)) as Hd.
  destruct (advance g (world_of poll)) as [[[[]|e|] g1] w1]; cbn in *;
    repeat split; try done.
Qed.

Lemma unchallenged_counter_cancels_witness :
  let choice := mkChoice ASSASSINATE (Some 1) in
  let w := script [ARole (Some CONTESSA); ABool false; ABool false] in
  players (state_of (counter_phase choice game_three_coins w)) = players game_three_coins
  ∧ outcome_of (counter_phase choice game_three_coins w) = Ok CounterStood.
Proof.
  intros choice w.
  destruct (unchallenged_counter_cancels game_three_coins w choice 1 1
              (mkPlayer 1 2 [face_down ASSASSIN; face_down CONTESSA]) CONTESSA)
    as (Hrun & Hp & _); [reflexivity|lia|discriminate|simpl; lia|reflexivity..|].
  split; [exact Hp|]. rewrite Hrun. reflexivity.
Defined.
